(** * music-match-service: the search ranking and link resolution services

    A shallow embedding of [app/services.py], [app/models.py] and the
    confidence computation of [app/main.py], with the properties the
    specification states about them.

    Conventions.
    - A Python [str] is a [string]; its characters are the code points
      below 256, which is where [\s], [str.strip], [str.lower] and
      [re.IGNORECASE] are modelled.
    - A Python [float] is a binary64 [float] with the kernel's IEEE 754
      operations, so every score is computed bit for bit as CPython does.
    - A Python [int] is a [Z].
    - A call that may raise returns a [result]. *)

From Stdlib Require Import ZArith List String Ascii Bool Lia Floats.
From Stdlib Require Import Permutation Sorted.
From Stdlib Require Import DecimalString DecimalZ.
Import ListNotations.

Set Warnings "-inexact-float,-register-all".

Local Open Scope string_scope.
Local Open Scope list_scope.

(* ================================================================== *)
(** * Python string primitives *)

Module PyStr.

(** [Py_UNICODE_ISSPACE] on the code points below 256: it drives both the
    regular expression class [\s] and [str.strip]. *)
Definition is_space (c : ascii) : bool :=
  let n := nat_of_ascii c in
  ((9 <=? n) && (n <=? 13) || (28 <=? n) && (n <=? 32)
   || (n =? 133) || (n =? 160))%nat.

(** [str.lower] on one code point below 256: [A-Z] and the upper case
    letters of Latin-1 (all of U+00C0..U+00DE but the multiplication sign)
    move up by 32.  On these code points [str.lower] maps character by
    character and stays below 256; this is not so above them (U+0130
    lowers to two code points), where the model does not apply. *)
Definition lower_char (c : ascii) : ascii :=
  let n := nat_of_ascii c in
  if ((65 <=? n) && (n <=? 90)
      || (192 <=? n) && (n <=? 222) && negb (n =? 215))%nat
  then ascii_of_nat (n + 32) else c.

(** [s.lower()] *)
Fixpoint lower (s : string) : string :=
  match s with
  | EmptyString => EmptyString
  | String c r => String (lower_char c) (lower r)
  end.

(** [s.lstrip()] *)
Fixpoint lstrip (s : string) : string :=
  match s with
  | EmptyString => EmptyString
  | String c r => if is_space c then lstrip r else s
  end.

(** [s.rstrip()] *)
Fixpoint rstrip (s : string) : string :=
  match s with
  | EmptyString => EmptyString
  | String c r =>
      match rstrip r with
      | EmptyString => if is_space c then EmptyString else String c EmptyString
      | r' => String c r'
      end
  end.

(** [s.strip()] *)
Definition strip (s : string) : string := lstrip (rstrip s).

(** [needle in hay] on two strings. *)
Fixpoint str_in (needle hay : string) : bool :=
  if String.prefix needle hay then true
  else match hay with
       | EmptyString => false
       | String _ r => str_in needle r
       end.

(** [sep.join(parts)] *)
Definition join (sep : string) (parts : list string) : string :=
  String.concat sep parts.

(** The mathematical reading of [in]: [needle] occurs inside [hay]. *)
Definition Substring (needle hay : string) : Prop :=
  exists l r, hay = (l ++ needle ++ r)%string.

End PyStr.

(* ================================================================== *)
(** * The two regular expressions of [clean_string] *)

Module Regex.
Import PyStr.

(** A literal of the pattern matched under [re.IGNORECASE] at the head of
    [s]; the rest of [s] when it matches.  Among the code points below 256
    a letter of the pattern matches its two ASCII cases only; above them
    [re.IGNORECASE] has further matches (U+0130 and U+0131 for [i]), which
    are outside the model. *)
Fixpoint match_literal_ci (lit s : string) : option string :=
  match lit with
  | EmptyString => Some s
  | String p lit' =>
      match s with
      | EmptyString => None
      | String c s' =>
          if Ascii.eqb (lower_char c) (lower_char p)
          then match_literal_ci lit' s' else None
      end
  end.

(** [.*?\)] at the head of [s]: the lazy star takes as few characters as
    it can, so the match ends at the first [")"]; [.] does not match a
    line feed.  The rest of [s] after the [")"]. *)
Fixpoint match_lazy_close (s : string) : option string :=
  match s with
  | EmptyString => None
  | String c r =>
      if Ascii.eqb c ")" then Some r
      else if Ascii.eqb c "010" then None
      else match_lazy_close r
  end.

Definition and_then {A B} (o : option A) (k : A -> option B) : option B :=
  match o with Some a => k a | None => None end.

(** [\(feat\..*?\)|\(featuring.*?\)] at the head of [s], first
    alternative first. *)
Definition match_feat (s : string) : option string :=
  match and_then (match_literal_ci "(feat." s) match_lazy_close with
  | Some r => Some r
  | None => and_then (match_literal_ci "(featuring" s) match_lazy_close
  end.

(** [re.sub(pattern, '', s)]: scan from the left, drop every match and
    resume right after it.  [skip] counts the characters of the current
    match that are still to be dropped. *)
Fixpoint sub_feat_from (skip : nat) (s : string) : string :=
  match s with
  | EmptyString => EmptyString
  | String c r =>
      match skip with
      | S k => sub_feat_from k r
      | O =>
          match match_feat s with
          | Some rest => sub_feat_from (String.length r - String.length rest) r
          | None => String c (sub_feat_from 0 r)
          end
      end
  end.

(** [re.sub(r'\(feat\..*?\)|\(featuring.*?\)', '', s, flags=re.IGNORECASE)] *)
Definition sub_feat (s : string) : string := sub_feat_from 0 s.

(** [re.sub(r'\s+', ' ', s)]: every maximal run of white space becomes one
    space.  [in_run] tells that the previous character was white space. *)
Fixpoint sub_ws_from (in_run : bool) (s : string) : string :=
  match s with
  | EmptyString => EmptyString
  | String c r =>
      if is_space c
      then if in_run then sub_ws_from true r
           else String " " (sub_ws_from true r)
      else String c (sub_ws_from false r)
  end.

Definition sub_ws (s : string) : string := sub_ws_from false s.

End Regex.

(* ================================================================== *)
(** * [SpotifyService.clean_string] *)

Import PyStr Regex.

Definition clean_string (s : string) : string :=
  let s := sub_feat s in
  let s := lower (strip (sub_ws s)) in
  s.

(** What the second statement of [clean_string] does on its own. *)
Definition squeeze (s : string) : string := lower (strip (sub_ws s)).

(* ================================================================== *)
(** * Exceptions and calls that may raise *)

Inductive exn : Type :=
| IndexError          (* [l[0]] on an empty list *)
| KeyError            (* [d[k]] on a missing key *)
| AttributeError      (* [.get] on a value that is not a dict *)
| JSONDecodeError     (* [response.json()] on a body that is not JSON *)
| ValidationError     (* a pydantic model refused its arguments *)
| RequestException    (* transport failure of [requests.get], time-outs included *)
| SpotifyException.   (* the catalog client failed *)

Inductive result (A : Type) : Type :=
| Ok (a : A)
| Raise (e : exn).
Arguments Ok {A} a.
Arguments Raise {A} e.

Definition bind {A B} (m : result A) (k : A -> result B) : result B :=
  match m with
  | Ok a => k a
  | Raise e => Raise e
  end.

(** [try: body  except Exception as e: handler(e)] *)
Definition try_except {A} (body : result A) (handler : exn -> result A)
  : result A :=
  match body with
  | Ok a => Ok a
  | Raise e => handler e
  end.

Declare Scope py_scope.
Delimit Scope py_scope with py.
Notation "x <- m ;; k" := (bind m (fun x => k))
  (at level 61, m at next level, right associativity) : py_scope.

(* ================================================================== *)
(** * Python numbers *)

Module PyNum.

(** [float(z)] for an [int] of absolute value below 2^63. *)
Definition float_of_int (z : Z) : float :=
  if (z <? 0)%Z then (- PrimFloat.of_uint63 (Uint63.of_Z (- z)))%float
  else PrimFloat.of_uint63 (Uint63.of_Z z).

(** [min(a, b)] on two floats: the first minimal argument. *)
Definition py_min (a b : float) : float :=
  if (b <? a)%float then b else a.

(** [l[:stop]] *)
Definition slice_to {A} (l : list A) (stop : Z) : list A :=
  if (0 <=? stop)%Z then firstn (Z.to_nat stop) l
  else firstn (List.length l - Z.to_nat (- stop)) l.

(** [bool(s)] of an optional string: [None] and the empty string are
    falsy. *)
Definition truthy (link : option string) : bool :=
  match link with
  | None => false
  | Some s => negb (String.eqb s "")
  end.

End PyNum.
Import PyNum.

(* ================================================================== *)
(** * [models.py] *)

Module TrackMetadata.
Record t : Type := mk {
  title : string;
  artist : string;
  album : string;
  cover_image : option string;
  duration_ms : Z;
  isrc : option string;
  spotify_id : string;
  spotify_url : string;
  preview_url : option string;
  content_type : string
}.
End TrackMetadata.

Module AlbumMetadata.
Record t : Type := mk {
  title : string;
  artist : string;
  cover_image : option string;
  total_tracks : Z;
  release_date : string;
  spotify_id : string;
  spotify_url : string;
  content_type : string
}.
End AlbumMetadata.

(** An element of [SearchResponse.results]: [List[Any]] holding track and
    album metadata. *)
Inductive Metadata : Type :=
| OfTrack (m : TrackMetadata.t)
| OfAlbum (m : AlbumMetadata.t).

(* ================================================================== *)
(** * The catalog provider's items, as [search_mixed] reads them *)

Record Artist : Type := { artist_name : string }.
Record Image : Type := { image_url : string }.

(** [track['album']] *)
Record TrackAlbum : Type := {
  ta_name : string;
  ta_images : list Image
}.

Record Track : Type := {
  track_name : string;
  track_artists : list Artist;
  track_album : TrackAlbum;
  track_duration_ms : Z;
  track_isrc : option string;       (* [.get('external_ids', {}).get('isrc')] *)
  track_id : string;
  track_spotify : string;           (* [['external_urls']['spotify']] *)
  track_preview_url : option string (* [.get('preview_url')] *)
}.

Record Album : Type := {
  album_name : string;
  album_artists : list Artist;
  album_images : list Image;
  album_total_tracks : Z;
  album_release_date : string;
  album_id : string;
  album_spotify : string
}.

Inductive SearchType : Type := type_track | type_album.

(** One call [spotify.search(q=.., type=.., limit=..)]. *)
Record Request : Type := {
  req_q : string;
  req_type : SearchType;
  req_limit : Z
}.

(** The dict a search returns: the key ['tracks'] or ['albums'] with its
    ['items'], when present. *)
Record SearchResult : Type := {
  tracks_items : option (list Track);
  albums_items : option (list Album)
}.

(** The catalog client: what each request returns or raises. *)
Definition Spotify : Type := Request -> result SearchResult.

(** A computation that calls the catalog: it extends the log of the
    requests issued so far and returns or raises. *)
Definition IO (A : Type) : Type :=
  list Request -> list Request * result A.

Definition io_lift {A} (r : result A) : IO A := fun log => (log, r).

Definition io_bind {A B} (m : IO A) (k : A -> IO B) : IO B :=
  fun log =>
    match m log with
    | (log', Ok a) => k a log'
    | (log', Raise e) => (log', Raise e)
    end.

(** [try: body  except Exception as e: logger.error(..); raise e] *)
Definition io_try_reraise {A} (body : IO A) : IO A :=
  fun log =>
    match body log with
    | (log', Ok a) => (log', Ok a)
    | (log', Raise e) => (log', Raise e)
    end.

Definition search (sp : Spotify) (q : string) (ty : SearchType) (limit : Z)
  : IO SearchResult :=
  fun log =>
    let req := {| req_q := q; req_type := ty; req_limit := limit |} in
    (log ++ [req], sp req).

Notation "x <-- m ;; k" := (io_bind m (fun x => k))
  (at level 61, m at next level, right associativity) : py_scope.

(** [d[key]] on an optional entry. *)
Definition getitem {A} (entry : option A) : result A :=
  match entry with
  | Some a => Ok a
  | None => Raise KeyError
  end.

(** [l[0]] *)
Definition first {A} (l : list A) : result A :=
  match l with
  | a :: _ => Ok a
  | [] => Raise IndexError
  end.

(** [images[0]['url'] if images else None] *)
Definition cover_of (images : list Image) : option string :=
  match images with
  | i :: _ => Some (image_url i)
  | [] => None
  end.

(** [", ".join([artist['name'] for artist in artists])] *)
Definition display_artist (artists : list Artist) : string :=
  join ", " (map artist_name artists).

(** A [for] loop whose body appends one element to [acc] or raises. *)
Fixpoint for_each {A B} (body : A -> result B) (items : list A)
  (acc : list B) : result (list B) :=
  match items with
  | [] => Ok acc
  | x :: rest =>
      match body x with
      | Ok b => for_each body rest (acc ++ [b])
      | Raise e => Raise e
      end
  end.

(** [l.sort(key=lambda x: x[1], reverse=True)]: the sort is stable and
    [reverse=True] keeps the original order of equal keys, so an element
    moves behind another one only when its key is strictly smaller. *)
Fixpoint insert_desc {A} (x : A * float) (l : list (A * float))
  : list (A * float) :=
  match l with
  | [] => [x]
  | y :: r => if (snd x <? snd y)%float then y :: insert_desc x r else x :: l
  end.

Fixpoint sort_desc {A} (l : list (A * float)) : list (A * float) :=
  match l with
  | [] => []
  | x :: r => insert_desc x (sort_desc r)
  end.

(* ================================================================== *)
(** * [SpotifyService] *)

Section Scorer.

(** [fuzz.ratio] of the fuzzywuzzy package: an integer percentage. *)
Variable fuzz_ratio : string -> string -> Z.

Local Open Scope float_scope.

Definition calculate_relevance_score (query title artist : string) : float :=
  let query_clean := clean_string query in
  let title_clean := clean_string title in
  let artist_clean := clean_string artist in
  let title_exact_match :=
    (str_in query_clean title_clean || str_in title_clean query_clean)%bool in
  let artist_match :=
    (str_in query_clean artist_clean || str_in artist_clean query_clean)%bool in
  let title_fuzzy := float_of_int (fuzz_ratio query_clean title_clean) / 100 in
  let artist_fuzzy := float_of_int (fuzz_ratio query_clean artist_clean) / 100 in
  let combined_fuzzy :=
    float_of_int
      (fuzz_ratio query_clean (title_clean ++ " " ++ artist_clean)%string)
    / 100 in
  let score := 0 in
  let score := if title_exact_match then score + 0.5 else score in
  let score := if artist_match then score + 0.3 else score in
  let score :=
    score + (title_fuzzy * 0.4 + artist_fuzzy * 0.2 + combined_fuzzy * 0.3) in
  py_min 1.0 score.

(** The body of the loop over [track_results['tracks']['items']]. *)
Definition process_track (query : string) (track : Track)
  : result (Metadata * float) :=
  (let metadata :=
     TrackMetadata.mk
       (track_name track)
       (display_artist (track_artists track))
       (ta_name (track_album track))
       (cover_of (ta_images (track_album track)))
       (track_duration_ms track)
       (track_isrc track)
       (track_id track)
       (track_spotify track)
       (track_preview_url track)
       "track" in
   a0 <- first (track_artists track) ;;
   let relevance :=
     calculate_relevance_score query (track_name track) (artist_name a0) in
   Ok (OfTrack metadata, relevance))%py.

(** The body of the loop over [album_results['albums']['items']]. *)
Definition process_album (query : string) (album : Album)
  : result (Metadata * float) :=
  (let metadata :=
     AlbumMetadata.mk
       (album_name album)
       (display_artist (album_artists album))
       (cover_of (album_images album))
       (album_total_tracks album)
       (album_release_date album)
       (album_id album)
       (album_spotify album)
       "album" in
   a0 <- first (album_artists album) ;;
   let relevance :=
     calculate_relevance_score query (album_name album) (artist_name a0) in
   Ok (OfAlbum metadata, relevance))%py.

Definition search_mixed (sp : Spotify) (query : string) (limit : Z)
  : IO (list Metadata) :=
  io_try_reraise
    (track_results <-- search sp query type_track (Z.max 5 (limit / 2)) ;;
     album_results <-- search sp query type_album (Z.max 3 (limit / 3)) ;;
     let mixed_results := [] in
     io_lift
       (tracks <- getitem (tracks_items track_results) ;;
        mixed_results <- for_each (process_track query) tracks mixed_results ;;
        albums <- getitem (albums_items album_results) ;;
        mixed_results <- for_each (process_album query) albums mixed_results ;;
        let mixed_results := sort_desc mixed_results in
        Ok (map fst (slice_to mixed_results limit))))%py.

End Scorer.

(* ================================================================== *)
(** * JSON values and the link provider *)

Inductive json : Type :=
| JNull
| JBool (b : bool)
| JNum (n : Z)
| JStr (s : string)
| JArr (items : list json)
| JObj (items : list (string * json)).

Fixpoint lookup (key : string) (items : list (string * json)) : option json :=
  match items with
  | [] => None
  | (k, v) :: rest => if String.eqb k key then Some v else lookup key rest
  end.

(** [v.get(key, default)]; only a dict has [get]. *)
Definition get (v : json) (key : string) (default : json) : result json :=
  match v with
  | JObj items =>
      Ok (match lookup key items with Some x => x | None => default end)
  | _ => Raise AttributeError
  end.

(** What [requests.get] hands back: the status and the body, [None] when
    the body is not JSON. *)
Record Response : Type := {
  status_code : Z;
  body : option json
}.

(** [response.json()] *)
Definition response_json (r : Response) : result json :=
  match body r with
  | Some j => Ok j
  | None => Raise JSONDecodeError
  end.

(** [requests.get(api_url, timeout=10)]: a response, or the exception of a
    transport failure (a time-out is one). *)
Definition SongLink : Type := string -> result Response.

(* ================================================================== *)
(** * The pydantic models of the link resolver *)

Module Pydantic.

(** A keyword argument of a model's constructor: [None] when the call does
    not pass it. *)
Definition kwarg : Type := option json.

(** Validation of a value against [Optional[str]]. *)
Definition optional_str (v : json) : result (option string) :=
  match v with
  | JNull => Ok None
  | JStr s => Ok (Some s)
  | _ => Raise ValidationError
  end.

(** A field declared [name: Optional[str]], with no default.  The
    repository runs on pydantic 2 ([config.py] imports [pydantic_settings],
    which exists for pydantic 2 only), where such a field accepts [None]
    but is required: a call that leaves it out is refused. *)
Definition required (k : kwarg) : result (option string) :=
  match k with
  | Some v => optional_str v
  | None => Raise ValidationError
  end.

(** A field declared [name: Optional[str] = None]. *)
Definition defaulted (k : kwarg) : result (option string) :=
  match k with
  | Some v => optional_str v
  | None => Ok None
  end.

End Pydantic.

Module DSPLinks.
Record t : Type := mk {
  spotify : option string;
  apple_music : option string;
  youtube_music : option string;
  deezer : option string;
  soundcloud : option string;
  amazon_music : option string;
  tidal : option string
}.

(** [DSPLinks(spotify=.., apple_music=.., ...)]: none of the seven fields
    has a default in [models.py]. *)
Definition init
  (spotify apple_music youtube_music deezer soundcloud amazon_music tidal
     : Pydantic.kwarg) : result t :=
  (a <- Pydantic.required spotify ;;
   b <- Pydantic.required apple_music ;;
   c <- Pydantic.required youtube_music ;;
   d <- Pydantic.required deezer ;;
   e <- Pydantic.required soundcloud ;;
   f <- Pydantic.required amazon_music ;;
   g <- Pydantic.required tidal ;;
   Ok (mk a b c d e f g))%py.
End DSPLinks.

Module PlatformInfo.
Record t : Type := mk {
  url : option string;
  native_app_uri : option string;
  country : option string
}.

(** [PlatformInfo(url=.., native_app_uri=..)]: every field has a default,
    [country] is ["US"]. *)
Definition init (url native_app_uri : Pydantic.kwarg) : result t :=
  (u <- Pydantic.defaulted url ;;
   n <- Pydantic.defaulted native_app_uri ;;
   Ok (mk u n (Some "US")))%py.
End PlatformInfo.

Module DetailedPlatformLinks.
Record t : Type := mk {
  spotify : option PlatformInfo.t;
  apple_music : option PlatformInfo.t;
  youtube_music : option PlatformInfo.t;
  youtube : option PlatformInfo.t;
  deezer : option PlatformInfo.t;
  soundcloud : option PlatformInfo.t;
  amazon_music : option PlatformInfo.t;
  tidal : option PlatformInfo.t;
  pandora : option PlatformInfo.t
}.

(** The platform URLs the mapping carries, absent platforms included. *)
Definition urls (l : t) : list (option string) :=
  map (fun p => match p with
                | Some i => PlatformInfo.url i
                | None => None
                end)
      [spotify l; apple_music l; youtube_music l; youtube l; deezer l;
       soundcloud l; amazon_music l; tidal l; pandora l].
End DetailedPlatformLinks.

(** A mapping carries a usable link when one of its URLs is present. *)
Definition some_present (urls : list (option string)) : bool :=
  existsb (fun u => match u with Some _ => true | None => false end) urls.

(* ================================================================== *)
(** * [SongLinkService] *)

Definition base_url : string := "https://api.song.link/v1-alpha.1".

Definition api_url_of (spotify_url : string) : string :=
  (base_url ++ "/links?url=" ++ spotify_url)%string.

(** [links.get(platform, {}).get(field, default)] *)
Definition platform_field (links : json) (platform field : string)
  (default : json) : result json :=
  (entry <- get links platform (JObj []) ;;
   get entry field default)%py.

Definition get_platform_links (http : SongLink) (spotify_url : string)
  : result DSPLinks.t :=
  try_except
    (let api_url := api_url_of spotify_url in
     response <- http api_url ;;
     if negb (status_code response =? 200)%Z then
       DSPLinks.init (Some (JStr spotify_url)) None None None None None None
     else
       data <- response_json response ;;
       links <- get data "linksByPlatform" (JObj []) ;;
       spotify <- platform_field links "spotify" "url" (JStr spotify_url) ;;
       apple_music <- platform_field links "appleMusic" "url" JNull ;;
       youtube_music <- platform_field links "youtubeMusic" "url" JNull ;;
       deezer <- platform_field links "deezer" "url" JNull ;;
       soundcloud <- platform_field links "soundcloud" "url" JNull ;;
       amazon_music <- platform_field links "amazonMusic" "url" JNull ;;
       tidal <- platform_field links "tidal" "url" JNull ;;
       DSPLinks.init (Some spotify) (Some apple_music) (Some youtube_music)
         (Some deezer) (Some soundcloud) (Some amazon_music) (Some tidal))%py
    (fun e =>
       DSPLinks.init (Some (JStr spotify_url)) None None None None None None).

(** [PlatformInfo(url=links.get(p, {}).get('url'),
                  native_app_uri=links.get(p, {}).get('nativeAppUriMobile'))] *)
Definition platform_info (links : json) (platform : string)
  : result PlatformInfo.t :=
  (url <- platform_field links platform "url" JNull ;;
   native_app_uri <- platform_field links platform "nativeAppUriMobile" JNull ;;
   PlatformInfo.init (Some url) (Some native_app_uri))%py.

(** [DetailedPlatformLinks(spotify=PlatformInfo(url=spotify_url))] *)
Definition detailed_fallback (spotify_url : string)
  : result DetailedPlatformLinks.t :=
  (info <- PlatformInfo.init (Some (JStr spotify_url)) None ;;
   Ok (DetailedPlatformLinks.mk (Some info) None None None None None None
         None None))%py.

Definition get_detailed_platform_data (http : SongLink) (spotify_url : string)
  : result DetailedPlatformLinks.t :=
  try_except
    (let api_url := api_url_of spotify_url in
     response <- http api_url ;;
     if negb (status_code response =? 200)%Z then
       detailed_fallback spotify_url
     else
       data <- response_json response ;;
       links <- get data "linksByPlatform" (JObj []) ;;
       spotify <- platform_info links "spotify" ;;
       apple_music <- platform_info links "appleMusic" ;;
       youtube_music <- platform_info links "youtubeMusic" ;;
       deezer <- platform_info links "deezer" ;;
       amazon_music <- platform_info links "amazonMusic" ;;
       tidal <- platform_info links "tidal" ;;
       Ok (DetailedPlatformLinks.mk (Some spotify) (Some apple_music)
             (Some youtube_music) None (Some deezer) None
             (Some amazon_music) (Some tidal) None))%py
    (fun e => detailed_fallback spotify_url).

(** The function is annotated [-> str], which Python does not enforce:
    it returns whatever ['pageUrl'] holds. *)
Definition get_songlink_page_url (http : SongLink) (spotify_url : string)
  : result json :=
  try_except
    (let api_url := api_url_of spotify_url in
     response <- http api_url ;;
     if (status_code response =? 200)%Z then
       data <- response_json response ;;
       get data "pageUrl" (JStr ("https://song.link/" ++ spotify_url)%string)
     else
       Ok (JStr ("https://song.link/" ++ spotify_url)%string))%py
    (fun e => Ok (JStr ("https://song.link/" ++ spotify_url)%string)).

(* ================================================================== *)
(** * The confidence score of [match_across_platforms] ([main.py]) *)

(** [sum([1 for link in [apple_music, youtube_music, deezer, amazon_music,
                         tidal, soundcloud] if link])] *)
Definition platform_count (platform_links : DSPLinks.t) : Z :=
  Z.of_nat
    (List.length
       (filter truthy
          [DSPLinks.apple_music platform_links;
           DSPLinks.youtube_music platform_links;
           DSPLinks.deezer platform_links;
           DSPLinks.amazon_music platform_links;
           DSPLinks.tidal platform_links;
           DSPLinks.soundcloud platform_links])).

(** [min(0.95, 0.5 + (platform_count * 0.08))] *)
Definition confidence_score (platform_links : DSPLinks.t) : float :=
  py_min 0.95 (0.5 + float_of_int (platform_count platform_links) * 0.08)%float.

(* ================================================================== *)
(** * The rest of [SpotifyService] *)

(** [try: body  except Exception as e: handler(e)] around calls to the
    catalog. *)
Definition io_try_except {A} (body : IO A) (handler : exn -> IO A) : IO A :=
  fun log =>
    match body log with
    | (log', Ok a) => (log', Ok a)
    | (log', Raise e) => handler e log'
    end.

Definition test_connection (sp : Spotify) : IO bool :=
  io_try_except
    (r <-- search sp "test" type_track 1 ;;
     io_lift (Ok true))%py
    (fun e => io_lift (Ok false)).

(** [spotify.track(id)] and [spotify.album(id)]: the item, or the
    exception of a failed lookup. *)
Definition TrackLookup : Type := string -> result Track.
Definition AlbumLookup : Type := string -> result Album.

Definition get_track_metadata (track_api : TrackLookup) (spotify_id : string)
  : result TrackMetadata.t :=
  try_except
    (track <- track_api spotify_id ;;
     Ok (TrackMetadata.mk
           (track_name track)
           (display_artist (track_artists track))
           (ta_name (track_album track))
           (cover_of (ta_images (track_album track)))
           (track_duration_ms track)
           (track_isrc track)
           (track_id track)
           (track_spotify track)
           (track_preview_url track)
           "track"))%py
    (fun e => Raise e).

Definition get_album_metadata (album_api : AlbumLookup) (spotify_id : string)
  : result AlbumMetadata.t :=
  try_except
    (album <- album_api spotify_id ;;
     Ok (AlbumMetadata.mk
           (album_name album)
           (display_artist (album_artists album))
           (cover_of (album_images album))
           (album_total_tracks album)
           (album_release_date album)
           (album_id album)
           (album_spotify album)
           "album"))%py
    (fun e => Raise e).

(* ================================================================== *)
(** * The response models of [models.py] *)

Module SearchRequest.
Record t : Type := mk {
  query : string;
  limit : Z
}.
End SearchRequest.

Module SearchResponse.
Record t : Type := mk {
  query : string;
  total_results : Z;
  results : list Metadata
}.
End SearchResponse.

Module MatchResult.
Record t : Type := mk {
  metadata : Metadata;             (* [metadata.dict()] *)
  dsp_links : DSPLinks.t;
  confidence_score : float;
  content_type : string
}.
End MatchResult.

Module LandingPageData.
Record t : Type := mk {
  title : string;
  artist : string;
  album : option string;
  thumbnail_small : option string;
  thumbnail_medium : option string;
  thumbnail_large : option string;
  platforms : DetailedPlatformLinks.t;
  songlink_page_url : string;
  duration_ms : option Z;
  isrc : option string;
  release_date : option string;
  popularity : option Z;
  preview_url : option string;
  spotify_id : string
}.

(** Validation of the value passed for [songlink_page_url: str]. *)
Definition str_field (v : json) : result string :=
  match v with
  | JStr s => Ok s
  | _ => Raise ValidationError
  end.
End LandingPageData.

Module PreviewCardData.
Record t : Type := mk {
  title : string;
  artist : string;
  album : option string;
  cover_art : option string;
  duration : option string;
  preview_url : option string;
  quick_links : list (string * option string);
  deep_links : list (string * option string)
}.
End PreviewCardData.

(* ================================================================== *)
(** * Python formatting of integers *)

Module PyFormat.

(** [str(z)] *)
Definition str_int (z : Z) : string := NilZero.string_of_int (Z.to_int z).

(** [f"{z:02d}"]: zero padding to two characters, the sign included. *)
Definition format_02d (z : Z) : string :=
  if ((0 <=? z) && (z <? 10))%Z then ("0" ++ str_int z)%string else str_int z.

(** [int(s)] on a string that [str] can produce. *)
Definition parse_int (s : string) : option Z :=
  option_map Z.of_int (NilZero.int_of_string s).

(** The decimal digit [d]. *)
Definition digit (d : Z) : ascii := ascii_of_nat (48 + Z.to_nat d).

End PyFormat.
Import PyFormat.

(* ================================================================== *)
(** * The endpoints of [main.py] *)

(** [HTTPException(status_code=.., detail=..)] *)
Record HTTPException : Type := {
  http_status : Z;
  detail : string
}.

(** What an endpoint hands to the framework: its return value, or the
    [HTTPException] it raises. *)
Inductive reply (A : Type) : Type :=
| Reply (a : A)
| Failed (e : HTTPException).
Arguments Reply {A} a.
Arguments Failed {A} e.

(** The dict [health_check] returns. *)
Record Health : Type := {
  health_status : string;
  health_timestamp : float;
  health_spotify : string;
  health_songlink : string
}.

(** [x.url if x else None] on an optional [PlatformInfo]; a model object is
    always truthy. *)
Definition url_if (x : option PlatformInfo.t) : option string :=
  match x with
  | Some i => PlatformInfo.url i
  | None => None
  end.

Definition native_app_uri_if (x : option PlatformInfo.t) : option string :=
  match x with
  | Some i => PlatformInfo.native_app_uri i
  | None => None
  end.

(** [metadata.spotify_url] on either kind of metadata. *)
Definition metadata_spotify_url (m : Metadata) : string :=
  match m with
  | OfTrack t => TrackMetadata.spotify_url t
  | OfAlbum a => AlbumMetadata.spotify_url a
  end.

Section Endpoints.

(** [str(e)] for the exceptions of the services and for an
    [HTTPException]: their texts come from the libraries. *)
Variable str_exn : exn -> string.
Variable str_http : HTTPException -> string.

Variable fuzz_ratio : string -> string -> Z.

(** [time.time()] is passed as [now]. *)
Definition health_check (sp : Spotify) (now : float)
  : list Request -> list Request * reply Health :=
  fun log =>
    match test_connection sp log with
    | (log', Ok spotify_status) =>
        (log',
         Reply {| health_status := "healthy";
                  health_timestamp := now;
                  health_spotify := if spotify_status then "up" else "down";
                  health_songlink := "up" |})
    | (log', Raise e) =>
        (log', Failed {| http_status := 503; detail := "Service unhealthy" |})
    end.

Definition search_music (sp : Spotify) (request : SearchRequest.t)
  : list Request -> list Request * reply SearchResponse.t :=
  fun log =>
    match search_mixed fuzz_ratio sp (SearchRequest.query request)
            (SearchRequest.limit request) log with
    | (log', Ok results) =>
        (log',
         Reply (SearchResponse.mk (SearchRequest.query request)
                  (Z.of_nat (List.length results)) results))
    | (log', Raise e) =>
        (log',
         Failed {| http_status := 500;
                   detail := ("Search failed: " ++ str_exn e)%string |})
    end.

Definition match_across_platforms (track_api : TrackLookup)
  (album_api : AlbumLookup) (http : SongLink)
  (spotify_id content_type : string) : reply MatchResult.t :=
  match
    (metadata <-
       (if String.eqb content_type "track"
        then m <- get_track_metadata track_api spotify_id ;; Ok (OfTrack m)
        else m <- get_album_metadata album_api spotify_id ;; Ok (OfAlbum m)) ;;
     platform_links <- get_platform_links http (metadata_spotify_url metadata) ;;
     let confidence_score := confidence_score platform_links in
     Ok (MatchResult.mk metadata platform_links confidence_score
           content_type))%py
  with
  | Ok r => Reply r
  | Raise e =>
      Failed {| http_status := 500;
                detail := ("Matching failed: " ++ str_exn e)%string |}
  end.

(** [http_links] answers the request of [get_detailed_platform_data] and
    [http_page] the later one of [get_songlink_page_url]. *)
Definition get_landing_page_data (track_api : TrackLookup)
  (http_links http_page : SongLink) (spotify_id : string)
  : reply LandingPageData.t :=
  match
    (metadata <- get_track_metadata track_api spotify_id ;;
     platform_data <-
       get_detailed_platform_data http_links (TrackMetadata.spotify_url metadata) ;;
     songlink_page <-
       get_songlink_page_url http_page (TrackMetadata.spotify_url metadata) ;;
     songlink_page_url <- LandingPageData.str_field songlink_page ;;
     Ok (LandingPageData.mk
           (TrackMetadata.title metadata)
           (TrackMetadata.artist metadata)
           (Some (TrackMetadata.album metadata))
           (TrackMetadata.cover_image metadata)
           (TrackMetadata.cover_image metadata)
           (TrackMetadata.cover_image metadata)
           platform_data
           songlink_page_url
           (Some (TrackMetadata.duration_ms metadata))
           (TrackMetadata.isrc metadata)
           None        (* [getattr(metadata, 'release_date', None)] *)
           None        (* [getattr(metadata, 'popularity', None)] *)
           (TrackMetadata.preview_url metadata)
           spotify_id))%py
  with
  | Ok r => Reply r
  | Raise e =>
      Failed {| http_status := 500;
                detail := ("Landing page data failed: " ++ str_exn e)%string |}
  end.

(** [f"{ms // 60000}:{(ms % 60000) // 1000:02d}" if ms else None] *)
Definition format_duration (duration_ms : option Z) : option string :=
  match duration_ms with
  | None => None
  | Some ms =>
      if (ms =? 0)%Z then None
      else Some (str_int (ms / 60000) ++ ":"
                 ++ format_02d ((ms mod 60000) / 1000))%string
  end.

Definition get_preview_card_data (track_api : TrackLookup)
  (http_links http_page : SongLink) (spotify_id : string)
  : reply PreviewCardData.t :=
  match get_landing_page_data track_api http_links http_page spotify_id with
  | Reply landing_data =>
      let platforms := LandingPageData.platforms landing_data in
      Reply (PreviewCardData.mk
               (LandingPageData.title landing_data)
               (LandingPageData.artist landing_data)
               (LandingPageData.album landing_data)
               (LandingPageData.thumbnail_medium landing_data)
               (format_duration (LandingPageData.duration_ms landing_data))
               (LandingPageData.preview_url landing_data)
               [("spotify", url_if (DetailedPlatformLinks.spotify platforms));
                ("apple_music",
                 url_if (DetailedPlatformLinks.apple_music platforms));
                ("youtube_music",
                 url_if (DetailedPlatformLinks.youtube_music platforms));
                ("deezer", url_if (DetailedPlatformLinks.deezer platforms))]
               [("spotify_app",
                 native_app_uri_if (DetailedPlatformLinks.spotify platforms));
                ("apple_music_app",
                 native_app_uri_if
                   (DetailedPlatformLinks.apple_music platforms))])
  | Failed e =>
      Failed {| http_status := 500;
                detail := ("Preview card failed: " ++ str_http e)%string |}
  end.

End Endpoints.

(* ================================================================== *)
(** * A metric and a catalog to run the services on *)

(** The length of a longest common subsequence. *)
Fixpoint lcs (a b : string) : nat :=
  match a with
  | EmptyString => 0
  | String x a' =>
      (fix inner (b : string) : nat :=
         match b with
         | EmptyString => 0
         | String y b' =>
             if Ascii.eqb x y then S (lcs a' b')
             else Nat.max (lcs a' b) (inner b')
         end) b
  end.

(** One metric of the kind the scorer is run with: the share of the
    characters of both strings that lie on a longest common subsequence,
    as a percentage rounded to the nearest integer, 100 on equal strings
    and 0 when only one of them is empty. *)
Definition indel_ratio (s1 s2 : string) : Z :=
  if String.eqb s1 s2 then 100
  else if ((String.length s1 =? 0) || (String.length s2 =? 0))%nat then 0
  else
    let total := Z.of_nat (String.length s1 + String.length s2) in
    (2 * (200 * Z.of_nat (lcs s1 s2)) + total) / (2 * total).

Definition test_artist : Artist := {| artist_name := "Test Artist" |}.

Definition test_track : Track := {|
  track_name := "Test Song";
  track_artists := [test_artist; {| artist_name := "Guest" |}];
  track_album := {| ta_name := "Test Album"; ta_images := [] |};
  track_duration_ms := 215000;
  track_isrc := Some "USRC17607839";
  track_id := "t1";
  track_spotify := "https://open.spotify.com/track/t1";
  track_preview_url := None
|}.

Definition test_album : Album := {|
  album_name := "Test Album";
  album_artists := [test_artist];
  album_images := [{| image_url := "https://i.scdn.co/image/a1" |}];
  album_total_tracks := 12;
  album_release_date := "2020-01-01";
  album_id := "a1";
  album_spotify := "https://open.spotify.com/album/a1"
|}.

(** A catalog that answers every track search with [test_track] and every
    album search with [test_album]. *)
Definition test_catalog : Spotify :=
  fun req =>
    match req_type req with
    | type_track =>
        Ok {| tracks_items := Some [test_track]; albums_items := None |}
    | type_album =>
        Ok {| tracks_items := None; albums_items := Some [test_album] |}
    end.

(** An album the catalog lists with no artist. *)
Definition orphan_album : Album := {|
  album_name := "Test Album";
  album_artists := [];
  album_images := [];
  album_total_tracks := 1;
  album_release_date := "2020";
  album_id := "a2";
  album_spotify := "https://open.spotify.com/album/a2"
|}.

Definition orphan_catalog : Spotify :=
  fun req =>
    match req_type req with
    | type_track =>
        Ok {| tracks_items := Some [test_track]; albums_items := None |}
    | type_album =>
        Ok {| tracks_items := None; albums_items := Some [orphan_album] |}
    end.

Definition test_url : string := "https://open.spotify.com/track/t1".

(** Link providers: one that answers 404 and one that cannot be
    reached. *)
Definition not_found : SongLink :=
  fun _ => Ok {| status_code := 404; body := None |}.

Definition unreachable : SongLink := fun _ => Raise RequestException.

(** The links of a match whose Apple Music entry is present and empty. *)
Definition empty_apple_link : DSPLinks.t :=
  DSPLinks.mk (Some test_url) (Some "") None None None None None.

(** A provider that answers 200 with an empty Apple Music URL. *)
Definition empty_apple : SongLink :=
  fun _ =>
    Ok {| status_code := 200;
          body := Some (JObj [("linksByPlatform",
                               JObj [("appleMusic",
                                      JObj [("url", JStr "")])])]) |}.

(** A provider that answers 200 with a mapping that lists no platform. *)
Definition empty_mapping : SongLink :=
  fun _ => Ok {| status_code := 200;
                 body := Some (JObj [("linksByPlatform", JObj [])]) |}.

(** A catalog whose album search fails. *)
Definition albums_down : Spotify :=
  fun req =>
    match req_type req with
    | type_track =>
        Ok {| tracks_items := Some [test_track]; albums_items := None |}
    | type_album => Raise SpotifyException
    end.

(** A catalog that cannot be reached. *)
Definition catalog_down : Spotify := fun _ => Raise SpotifyException.

(** A track the catalog lists with no artist and no cover. *)
Definition anonymous_track : Track := {|
  track_name := "Untitled";
  track_artists := [];
  track_album := {| ta_name := "Unknown"; ta_images := [] |};
  track_duration_ms := 61000;
  track_isrc := None;
  track_id := "t2";
  track_spotify := "https://open.spotify.com/track/t2";
  track_preview_url := None
|}.

(** Lookups that know one item, and one that knows none. *)
Definition test_track_api : TrackLookup := fun _ => Ok test_track.
Definition anonymous_track_api : TrackLookup := fun _ => Ok anonymous_track.
Definition test_album_api : AlbumLookup := fun _ => Ok test_album.
Definition no_such_track : TrackLookup := fun _ => Raise SpotifyException.
Definition no_such_album : AlbumLookup := fun _ => Raise SpotifyException.

(** A provider that answers 200 with links for Spotify and Apple Music
    and a page URL. *)
Definition two_platforms : SongLink :=
  fun _ =>
    Ok {| status_code := 200;
          body :=
            Some (JObj
                    [("pageUrl", JStr "https://song.link/s/t1");
                     ("linksByPlatform",
                      JObj
                        [("spotify",
                          JObj [("url", JStr "https://open.spotify.com/track/t1");
                                ("nativeAppUriMobile", JStr "spotify:track:t1")]);
                         ("appleMusic",
                          JObj [("url", JStr "https://music.apple.com/t1")])])])
       |}.

(* ================================================================== *)
(** * Predicates used to state the properties *)

(** Every white space character of [s] is a space that follows no other
    white space ([prev] tells whether white space precedes [s]): the
    strings that [re.sub(r'\s+', ' ', _)] leaves alone. *)
Fixpoint single_spaced (prev : bool) (s : string) : bool :=
  match s with
  | EmptyString => true
  | String c r =>
      if is_space c
      then Ascii.eqb c " " && negb prev && single_spaced true r
      else single_spaced false r
  end.

(** The score [a] is at least the score [b]. *)
Definition score_ge (a b : float) : Prop := (b <=? a)%float = true.

(** A score of the documented range: between 0.0 and 1.0, so not a NaN. *)
Definition in_unit (x : float) : Prop :=
  (0 <=? x)%float = true /\ (x <=? 1)%float = true.

(** [x == x] in Python: it fails for a NaN only. *)
Definition is_number (x : float) : Prop := (x =? x)%float = true.

(** The comparison of two floats, read off their IEEE 754 specification:
    [None] when one of them is a NaN. *)
Definition cmp (x y : float) : option comparison :=
  SFcompare (Prim2SF x) (Prim2SF y).

(** The scored candidate [p] may stand before [q] in a descending
    ranking: its score is at least as high. *)
Definition ranks_before {A} (p q : A * float) : Prop :=
  score_ge (snd p) (snd q).

(** The scored candidate [p] has the score [v]. *)
Definition has_score {A} (v : float) (p : A * float) : bool :=
  (snd p =? v)%float.

Definition scored_number {A} (p : A * float) : Prop := is_number (snd p).

(** The arithmetic of [calculate_relevance_score] once the two substring
    tests and the three ratios are known: the bonus of the tests, the sum
    before [min], and the score. *)
Definition bonus (title_exact_match artist_match : bool) : float :=
  (let score := 0 in
   let score := if title_exact_match then score + 0.5 else score in
   let score := if artist_match then score + 0.3 else score in
   score)%float.

Definition weighted (weight : float) (ratio : Z) : float :=
  (float_of_int ratio / 100 * weight)%float.

Definition raw_sum (title_exact_match artist_match : bool)
  (r_title r_artist r_combined : Z) : float :=
  (bonus title_exact_match artist_match
   + (weighted 0.4 r_title + weighted 0.2 r_artist + weighted 0.3 r_combined))%float.

Definition blend (title_exact_match artist_match : bool)
  (r_title r_artist r_combined : Z) : float :=
  py_min 1.0 (raw_sum title_exact_match artist_match r_title r_artist r_combined).

(** The specification's scorer, in its words: the similarity of two
    normalized strings is the metric's percentage over 100; the sum starts
    at 0.0 and receives 0.5 for a title match, 0.3 for an artist match and
    the weighted similarities; a sum above 1.0 is replaced by 1.0. *)
Definition similarity (ratio : string -> string -> Z) (a b : string) : float :=
  (float_of_int (ratio a b) / 100)%float.

Definition spec_sum (titleExact artistMatch : bool)
  (titleFuzzy artistFuzzy combinedFuzzy : float) : float :=
  (0.0 + (if titleExact then 0.5 else 0.0) + (if artistMatch then 0.3 else 0.0)
   + (titleFuzzy * 0.4 + artistFuzzy * 0.2 + combinedFuzzy * 0.3))%float.

Definition spec_clamp (sum : float) : float :=
  if (1.0 <? sum)%float then 1.0%float else sum.

(** The percentages 0, 1, ..., 100. *)
Definition percentages : list Z := map Z.of_nat (seq 0 101).

(** The two requests [search_mixed] issues for a query and a limit. *)
Definition track_request (q : string) (limit : Z) : Request :=
  {| req_q := q; req_type := type_track; req_limit := Z.max 5 (limit / 2) |}.

Definition album_request (q : string) (limit : Z) : Request :=
  {| req_q := q; req_type := type_album; req_limit := Z.max 3 (limit / 3) |}.

(** A catalog that answers the two requests of [search_mixed] with the
    tracks [ts] and the albums [als]. *)
Definition catalog_returns (sp : Spotify) (q : string) (limit : Z)
  (ts : list Track) (als : list Album) : Prop :=
  (exists r, sp (track_request q limit) = Ok r /\ tracks_items r = Some ts) /\
  (exists r, sp (album_request q limit) = Ok r /\ albums_items r = Some als).

(** The specification's reading of the confidence score: the platform
    count is the number of links that are not absent. *)
Definition present (link : option string) : bool :=
  match link with Some _ => true | None => false end.

Definition spec_platform_count (platform_links : DSPLinks.t) : Z :=
  Z.of_nat
    (List.length
       (filter present
          [DSPLinks.apple_music platform_links;
           DSPLinks.youtube_music platform_links;
           DSPLinks.deezer platform_links;
           DSPLinks.amazon_music platform_links;
           DSPLinks.tidal platform_links;
           DSPLinks.soundcloud platform_links])).

Definition spec_confidence (platform_links : DSPLinks.t) : float :=
  py_min 0.95
    (0.5 + float_of_int (spec_platform_count platform_links) * 0.08)%float.

(** The provider did not answer 200: the call failed in transport or came
    back with another status. *)
Definition provider_failed (http : SongLink) (spotify_url : string) : Prop :=
  match http (api_url_of spotify_url) with
  | Ok r => status_code r <> 200%Z
  | Raise _ => True
  end.

(** The provider answered 200 with a JSON object whose
    ['linksByPlatform'] is the object [items]. *)
Definition answers_with (http : SongLink) (spotify_url : string)
  (items : list (string * json)) : Prop :=
  exists d,
    http (api_url_of spotify_url)
    = Ok {| status_code := 200; body := Some (JObj d) |} /\
    lookup "linksByPlatform" d = Some (JObj items).

(** A field of a platform entry that validates as [Optional[str]]: it is
    missing, [null] or a string. *)
Definition field_ok (v : option json) : bool :=
  match v with
  | None | Some JNull | Some (JStr _) => true
  | _ => false
  end.

(** A platform entry of the shape the provider documents: an object whose
    ['url'] and ['nativeAppUriMobile'] are strings when present. *)
Definition entry_ok (v : json) : bool :=
  match v with
  | JObj e => field_ok (lookup "url" e) && field_ok (lookup "nativeAppUriMobile" e)
  | _ => false
  end.

Definition mapping_ok (items : list (string * json)) : bool :=
  forallb (fun kv => entry_ok (snd kv)) items.

(** The string the mapping lists for a platform and field, if any. *)
Definition listed (items : list (string * json)) (platform field : string)
  : option string :=
  match lookup platform items with
  | Some (JObj e) =>
      match lookup field e with
      | Some (JStr u) => Some u
      | _ => None
      end
  | _ => None
  end.

(** The mapping has an entry for the platform with that field, whatever
    its value. *)
Definition has_field (items : list (string * json)) (platform field : string)
  : bool :=
  match lookup platform items with
  | Some (JObj e) =>
      match lookup field e with Some _ => true | None => false end
  | _ => false
  end.

(** The [PlatformInfo] of a platform as the mapping lists it. *)
Definition listed_info (items : list (string * json)) (platform : string)
  : PlatformInfo.t :=
  PlatformInfo.mk (listed items platform "url")
    (listed items platform "nativeAppUriMobile") (Some "US").

(** The platforms [get_platform_links] reads, in the order of the fields
    of [DSPLinks], and the ones [get_detailed_platform_data] reads. *)
Definition basic_platforms : list string :=
  ["spotify"; "appleMusic"; "youtubeMusic"; "deezer"; "soundcloud";
   "amazonMusic"; "tidal"].

Definition detailed_platforms : list string :=
  ["spotify"; "appleMusic"; "youtubeMusic"; "deezer"; "amazonMusic"; "tidal"].

(** What the basic links need of a platform: the mapping has no entry for
    it, or the entry is an object whose ['url'] is missing, [null] or a
    string.  Nothing is asked of the other fields of the entry. *)
Definition url_ok (items : list (string * json)) (platform : string) : bool :=
  match lookup platform items with
  | None => true
  | Some (JObj e) => field_ok (lookup "url" e)
  | Some _ => false
  end.

(** What the detailed links need of a platform: the same of
    ['nativeAppUriMobile'] as well. *)
Definition info_ok (items : list (string * json)) (platform : string) : bool :=
  match lookup platform items with
  | None => true
  | Some (JObj e) =>
      field_ok (lookup "url" e) && field_ok (lookup "nativeAppUriMobile" e)
  | Some _ => false
  end.

(** A provider whose Spotify entry has a number where the mobile URI
    belongs. *)
Definition numeric_uri : SongLink :=
  fun _ =>
    Ok {| status_code := 200;
          body :=
            Some (JObj
                    [("linksByPlatform",
                      JObj
                        [("spotify",
                          JObj [("url", JStr "https://open.spotify.com/track/t1?si=1");
                                ("nativeAppUriMobile", JNum 5)])])])
       |}.

(* ################################################################## *)
(** * Properties *)

(* ================================================================== *)
(** ** Characters *)

Lemma lower_char_idem (c : ascii) : lower_char (lower_char c) = lower_char c.
Proof. destruct c as [[] [] [] [] [] [] [] []]; reflexivity. Qed.

Lemma is_space_lower_char (c : ascii) : is_space (lower_char c) = is_space c.
Proof. destruct c as [[] [] [] [] [] [] [] []]; reflexivity. Qed.

Lemma is_space_eq_space (c : ascii) : Ascii.eqb c " " = true -> c = " "%char.
Proof. apply Ascii.eqb_eq. Qed.

(* ================================================================== *)
(** ** [lower], [strip] and [sub_ws] *)

Lemma lower_idem (s : string) : lower (lower s) = lower s.
Proof.
  induction s as [|c r IH]; simpl; [reflexivity|].
  now rewrite lower_char_idem, IH.
Qed.

Lemma lower_length (s : string) : String.length (lower s) = String.length s.
Proof. induction s as [|c r IH]; simpl; congruence. Qed.

Lemma lstrip_lower (s : string) : lstrip (lower s) = lower (lstrip s).
Proof.
  induction s as [|c r IH]; simpl; [reflexivity|].
  rewrite is_space_lower_char. destruct (is_space c); [exact IH|reflexivity].
Qed.

Lemma rstrip_lower (s : string) : rstrip (lower s) = lower (rstrip s).
Proof.
  induction s as [|c r IH]; simpl; [reflexivity|].
  rewrite IH, is_space_lower_char.
  destruct (rstrip r) as [|d r']; simpl; [|reflexivity].
  destruct (is_space c); reflexivity.
Qed.

Lemma strip_lower (s : string) : strip (lower s) = lower (strip s).
Proof. unfold strip. now rewrite rstrip_lower, lstrip_lower. Qed.

Lemma lstrip_idem (s : string) : lstrip (lstrip s) = lstrip s.
Proof.
  induction s as [|c r IH]; simpl; [reflexivity|].
  destruct (is_space c) eqn:E; [exact IH|]. simpl. now rewrite E.
Qed.

Lemma rstrip_cons (c : ascii) (r : string) :
  rstrip (String c r) =
  match rstrip r with
  | EmptyString => if is_space c then EmptyString else String c EmptyString
  | r' => String c r'
  end.
Proof. reflexivity. Qed.

Lemma rstrip_idem (s : string) : rstrip (rstrip s) = rstrip s.
Proof.
  induction s as [|c r IH]; [reflexivity|].
  rewrite rstrip_cons.
  destruct (rstrip r) as [|d r'] eqn:E.
  - destruct (is_space c) eqn:Ec; simpl; [reflexivity|]. now rewrite Ec.
  - rewrite rstrip_cons, IH. reflexivity.
Qed.

(** A string with no white space at its end keeps that end under
    [lstrip]. *)
Lemma rstrip_lstrip_fixed (s : string) :
  rstrip s = s -> rstrip (lstrip s) = lstrip s.
Proof.
  induction s as [|c r IH]; [reflexivity|].
  intros H. cbn [lstrip]. destruct (is_space c) eqn:Ec; [|exact H].
  apply IH. rewrite rstrip_cons, Ec in H.
  destruct (rstrip r) as [|d r'] eqn:E.
  - discriminate H.
  - now injection H.
Qed.

Lemma strip_idem (s : string) : strip (strip s) = strip s.
Proof.
  unfold strip.
  rewrite (rstrip_lstrip_fixed (rstrip s)) by apply rstrip_idem.
  apply lstrip_idem.
Qed.

Lemma single_spaced_sub_ws (b : bool) (s : string) :
  single_spaced b (sub_ws_from b s) = true.
Proof.
  revert b. induction s as [|c r IH]; intros b; simpl; [reflexivity|].
  destruct (is_space c) eqn:Ec.
  - destruct b; [apply IH|]. simpl. apply IH.
  - simpl. rewrite Ec. apply IH.
Qed.

Lemma sub_ws_fixed (b : bool) (s : string) :
  single_spaced b s = true -> sub_ws_from b s = s.
Proof.
  revert b. induction s as [|c r IH]; intros b; simpl; [reflexivity|].
  destruct (is_space c) eqn:Ec.
  - intros H. apply andb_prop in H as [H Hr]. apply andb_prop in H as [Hc Hb].
    apply is_space_eq_space in Hc. subst c.
    destruct b; [discriminate Hb|]. now rewrite IH.
  - intros H. now rewrite IH.
Qed.

Lemma single_spaced_weaken (b : bool) (s : string) :
  single_spaced b s = true -> single_spaced false s = true.
Proof.
  destruct s as [|c r]; simpl; [reflexivity|].
  destruct (is_space c); [|tauto].
  intros H. apply andb_prop in H as [H Hr]. apply andb_prop in H as [Hc _].
  now rewrite Hc, Hr.
Qed.

Lemma single_spaced_lstrip (b : bool) (s : string) :
  single_spaced b s = true -> single_spaced false (lstrip s) = true.
Proof.
  revert b. induction s as [|c r IH]; intros b; simpl; [reflexivity|].
  destruct (is_space c) eqn:Ec.
  - intros H. apply andb_prop in H as [_ Hr]. now apply IH in Hr.
  - intros H. simpl. now rewrite Ec.
Qed.

Lemma single_spaced_rstrip (b : bool) (s : string) :
  single_spaced b s = true -> single_spaced b (rstrip s) = true.
Proof.
  revert b. induction s as [|c r IH]; intros b; simpl; [reflexivity|].
  destruct (is_space c) eqn:Ec.
  - intros H. apply andb_prop in H as [H Hr]. apply IH in Hr.
    destruct (rstrip r) as [|d r'] eqn:E; [reflexivity|].
    cbn [single_spaced]. rewrite Ec, H. exact Hr.
  - intros H. apply IH in H.
    destruct (rstrip r) as [|d r'] eqn:E.
    + simpl. now rewrite Ec.
    + cbn [single_spaced]. rewrite Ec. exact H.
Qed.

Lemma sub_ws_lower (b : bool) (s : string) :
  sub_ws_from b (lower s) = lower (sub_ws_from b s).
Proof.
  revert b. induction s as [|c r IH]; intros b; simpl; [reflexivity|].
  rewrite is_space_lower_char. destruct (is_space c).
  - destruct b; simpl; now rewrite IH.
  - simpl. now rewrite IH.
Qed.

(** The second statement of [clean_string] changes nothing when it runs a
    second time. *)
Lemma squeeze_idem (s : string) : squeeze (squeeze s) = squeeze s.
Proof.
  unfold squeeze, sub_ws.
  rewrite sub_ws_lower.
  rewrite (sub_ws_fixed false (strip (sub_ws_from false s))).
  - now rewrite strip_lower, strip_idem, lower_idem.
  - unfold strip. apply (single_spaced_lstrip false).
    apply single_spaced_rstrip, single_spaced_sub_ws.
Qed.

Lemma sub_ws_length (b : bool) (s : string) :
  String.length (sub_ws_from b s) <= String.length s.
Proof.
  revert b. induction s as [|c r IH]; intros b; simpl; [lia|].
  destruct (is_space c); [destruct b|]; simpl;
    [specialize (IH true)|specialize (IH true)|specialize (IH false)]; lia.
Qed.

Lemma lstrip_length (s : string) : String.length (lstrip s) <= String.length s.
Proof.
  induction s as [|c r IH]; simpl; [lia|].
  destruct (is_space c); simpl; lia.
Qed.

Lemma rstrip_length (s : string) : String.length (rstrip s) <= String.length s.
Proof.
  induction s as [|c r IH]; [simpl; lia|].
  rewrite rstrip_cons. destruct (rstrip r) as [|d r'].
  - destruct (is_space c); simpl; lia.
  - simpl in *. lia.
Qed.

Lemma squeeze_length (s : string) :
  String.length (squeeze s) <= String.length s.
Proof.
  unfold squeeze, strip, sub_ws. rewrite lower_length.
  pose proof (lstrip_length (rstrip (sub_ws_from false s))).
  pose proof (rstrip_length (sub_ws_from false s)).
  pose proof (sub_ws_length false s). lia.
Qed.

(* ================================================================== *)
(** ** [sub_feat] *)

Lemma sub_feat_from_length (k : nat) (s : string) :
  String.length (sub_feat_from k s) <= String.length s.
Proof.
  revert k. induction s as [|c r IH]; intros k; [simpl; lia|].
  cbn [sub_feat_from]. destruct k as [|k].
  - destruct (match_feat (String c r)) as [rest|].
    + specialize (IH (String.length r - String.length rest)). simpl. lia.
    + specialize (IH 0). simpl. lia.
  - specialize (IH k). simpl. lia.
Qed.

(** A substitution that changes the string makes it shorter. *)
Lemma sub_feat_shrinks (s : string) :
  sub_feat s <> s -> String.length (sub_feat s) < String.length s.
Proof.
  unfold sub_feat. induction s as [|c r IH]; [now intros H|].
  cbn [sub_feat_from]. destruct (match_feat (String c r)) as [rest|].
  - intros _.
    pose proof (sub_feat_from_length (String.length r - String.length rest) r).
    simpl. lia.
  - intros H. simpl.
    assert (sub_feat_from 0 r <> r) by (intros E; apply H; now rewrite E).
    apply IH in H0. lia.
Qed.

(** C3, counterexample: a parenthetical that only appears once an inner one
    is removed survives the first normalization and is removed by the
    second, so normalizing twice differs from normalizing once. *)
Lemma clean_string_not_idempotent :
  clean_string "Song (feat(feat. A). B)" = "song (feat. b)" /\
  clean_string (clean_string "Song (feat(feat. A). B)") = "song" /\
  clean_string (clean_string "Song (feat(feat. A). B)")
    <> clean_string "Song (feat(feat. A). B)".
Proof. repeat split; [reflexivity..|discriminate]. Qed.

(** C3, amended: normalizing twice equals normalizing once exactly for the
    strings whose normal form holds no "feat." or "featuring" parenthetical
    any more; "Foo (feat. Bar)" and "FOO" are such strings, both normalize
    to "foo", and normalizing "foo" again leaves it unchanged. *)
Theorem clean_string_idempotent_iff :
  (forall s : string,
      clean_string (clean_string s) = clean_string s <->
      sub_feat (clean_string s) = clean_string s) /\
  clean_string "Foo (feat. Bar)" = "foo" /\
  clean_string "FOO" = "foo" /\
  clean_string (clean_string "Foo (feat. Bar)") = clean_string "FOO".
Proof.
  split; [|repeat split; reflexivity].
  intros s. change (clean_string s) with (squeeze (sub_feat s)).
  set (n := squeeze (sub_feat s)).
  change (clean_string n) with (squeeze (sub_feat n)).
  split.
  - intros H. destruct (string_dec (sub_feat n) n) as [E|E]; [exact E|].
    exfalso. apply sub_feat_shrinks in E.
    pose proof (squeeze_length (sub_feat n)) as L. rewrite H in L. lia.
  - intros E. rewrite E. apply squeeze_idem.
Qed.

(** The amended C3 at "Song (Featuring A) (feat. B) end": its normal form
    "song end" holds no parenthetical, so it is a fixed point. *)
Lemma clean_string_idempotent_witness :
  clean_string (clean_string "Song (Featuring A) (feat. B) end")
  = clean_string "Song (Featuring A) (feat. B) end".
Proof.
  apply (proj1 clean_string_idempotent_iff "Song (Featuring A) (feat. B) end").
  reflexivity.
Defined.

(* ================================================================== *)
(** ** [in] is the substring relation *)

Lemma append_length (a b : string) :
  String.length (a ++ b)%string = String.length a + String.length b.
Proof. induction a as [|c a IH]; simpl; congruence. Qed.

Lemma append_assoc (a b c : string) :
  ((a ++ b) ++ c = a ++ b ++ c)%string.
Proof. induction a as [|x a IH]; simpl; congruence. Qed.

Lemma prefix_spec (n h : string) :
  String.prefix n h = true <-> exists r, h = (n ++ r)%string.
Proof.
  revert n. induction h as [|c h IH]; intros [|d n]; simpl.
  - split; [now exists ""|reflexivity].
  - split; [discriminate|now intros [r H]].
  - split; [now exists (String c h)|reflexivity].
  - destruct (ascii_dec d c) as [->|N].
    + rewrite IH. split; intros [r H]; exists r; congruence.
    + split; [discriminate|]. intros [r H]. congruence.
Qed.

Lemma str_in_unfold (n h : string) :
  str_in n h =
  if String.prefix n h then true
  else match h with
       | EmptyString => false
       | String _ r => str_in n r
       end.
Proof. destruct h; reflexivity. Qed.

Lemma str_in_spec (n h : string) : str_in n h = true <-> Substring n h.
Proof.
  unfold Substring. split.
  - induction h as [|c h IH]; rewrite str_in_unfold;
      destruct (String.prefix n _) eqn:P.
    + apply prefix_spec in P as [r ->]. now exists "", r.
    + discriminate.
    + apply prefix_spec in P as [r ->]. now exists "", r.
    + intros H. apply IH in H as (l & r & ->). now exists (String c l), r.
  - intros (l & r & ->). induction l as [|c l IH]; rewrite str_in_unfold.
    + replace (String.prefix n ("" ++ n ++ r)) with true; [reflexivity|].
      symmetry. apply prefix_spec. now exists r.
    + destruct (String.prefix n _); [reflexivity|]. exact IH.
Qed.

(** Two booleans that decide the same proposition are equal. *)
Lemma bool_reflects (b c : bool) (P : Prop) :
  (b = true <-> P) -> (c = true <-> P) -> b = c.
Proof. destruct b, c; intuition congruence. Qed.

(* ================================================================== *)
(** ** The order of binary64 numbers *)

Module FloatOrder.
Local Open Scope float_scope.

Ltac cmp_cases :=
  repeat match goal with
  | |- context [(?x ?= ?y)%Z] => destruct (Z.compare_spec x y)
  | H : context [(?x ?= ?y)%Z] |- _ => destruct (Z.compare_spec x y)
  | |- context [(?x ?= ?y)%positive] => destruct (Pos.compare_spec x y)
  | H : context [(?x ?= ?y)%positive] |- _ => destruct (Pos.compare_spec x y)
  end.

Lemma SFcompare_antisym (a b : spec_float) (c : comparison) :
  SFcompare a b = Some c -> SFcompare b a = Some (CompOpp c).
Proof.
  destruct a as [[]|[]| |[] ma ea], b as [[]|[]| |[] mb eb]; simpl;
    intros H; inversion H; clear H; try reflexivity;
    rewrite (Z.compare_antisym ea eb); destruct (ea ?= eb)%Z; simpl;
    try reflexivity;
    change (Pos.compare_cont Eq) with Pos.compare;
    rewrite (Pos.compare_antisym ma mb); now destruct (ma ?= mb)%positive.
Qed.

Lemma SFcompare_trans (a b c : spec_float) (c1 c2 : comparison) :
  SFcompare a b = Some c1 -> SFcompare b c = Some c2 ->
  c1 <> Gt -> c2 <> Gt ->
  SFcompare a c = Some (match c1, c2 with Eq, Eq => Eq | _, _ => Lt end).
Proof.
  destruct a as [[]|[]| |[] ma ea], b as [[]|[]| |[] mb eb],
           c as [[]|[]| |[] mc ec]; simpl;
    intros H1 H2 N1 N2; try discriminate;
    injection H1 as <-; injection H2 as <-;
    change (Pos.compare_cont Eq) with Pos.compare in *;
    try reflexivity; try congruence;
    cmp_cases; subst; simpl in *; try reflexivity; try congruence; try lia.
Qed.

Lemma SFcompare_total (a b : spec_float) :
  SFcompare a a <> None -> SFcompare b b <> None ->
  exists c, SFcompare a b = Some c.
Proof.
  destruct a as [[]|[]| |[] ma ea], b as [[]|[]| |[] mb eb]; simpl;
    intros Ha Hb; try congruence; eauto.
Qed.

Lemma ltb_cmp x y : (x <? y) = true <-> cmp x y = Some Lt.
Proof.
  rewrite ltb_spec. unfold SFltb, cmp.
  destruct (SFcompare _ _) as [[]|]; intuition congruence.
Qed.

Lemma leb_cmp x y : (x <=? y) = true <-> cmp x y = Some Lt \/ cmp x y = Some Eq.
Proof.
  rewrite leb_spec. unfold SFleb, cmp.
  destruct (SFcompare _ _) as [[]|]; intuition congruence.
Qed.

Lemma eqb_cmp x y : (x =? y) = true <-> cmp x y = Some Eq.
Proof.
  rewrite eqb_spec. unfold SFeqb, cmp.
  destruct (SFcompare _ _) as [[]|]; intuition congruence.
Qed.

Lemma number_cmp x : is_number x <-> cmp x x <> None.
Proof.
  unfold is_number. rewrite eqb_cmp. unfold cmp.
  destruct (Prim2SF x) as [[]|[]| |[] m e]; simpl;
    rewrite ?Z.compare_refl; change (Pos.compare_cont Eq) with Pos.compare;
    rewrite ?Pos.compare_refl; simpl; intuition congruence.
Qed.

Lemma cmp_total x y : is_number x -> is_number y -> exists c, cmp x y = Some c.
Proof. rewrite !number_cmp. apply SFcompare_total. Qed.

Lemma cmp_antisym x y c : cmp x y = Some c -> cmp y x = Some (CompOpp c).
Proof. apply SFcompare_antisym. Qed.

Lemma leb_number_l x y : (x <=? y) = true -> is_number x.
Proof.
  rewrite leb_cmp, number_cmp. unfold cmp.
  destruct (Prim2SF x), (Prim2SF y); simpl; intuition congruence.
Qed.

Lemma leb_number_r x y : (x <=? y) = true -> is_number y.
Proof.
  rewrite leb_cmp, number_cmp. unfold cmp.
  destruct (Prim2SF x), (Prim2SF y); simpl; intuition congruence.
Qed.

Lemma in_unit_number x : in_unit x -> is_number x.
Proof. intros [H _]. exact (leb_number_r _ _ H). Qed.

Lemma ltb_leb x y : (x <? y) = true -> (x <=? y) = true.
Proof. rewrite ltb_cmp, leb_cmp. tauto. Qed.

Lemma ltb_asym x y : (x <? y) = true -> (y <? x) = false.
Proof.
  rewrite ltb_cmp. intros H. apply cmp_antisym in H.
  apply not_true_is_false. rewrite ltb_cmp. simpl in H. congruence.
Qed.

(** [not (x < y)] is [y <= x] on numbers. *)
Lemma not_ltb_leb x y :
  is_number x -> is_number y -> (x <? y) = false -> (y <=? x) = true.
Proof.
  intros Hx Hy H. apply not_true_iff_false in H. rewrite ltb_cmp in H.
  destruct (cmp_total x y Hx Hy) as [c Hc]. apply leb_cmp.
  apply cmp_antisym in Hc as Hc'.
  destruct c; simpl in Hc'; [now right|congruence|now left].
Qed.

Lemma leb_trans x y z :
  (x <=? y) = true -> (y <=? z) = true -> (x <=? z) = true.
Proof.
  rewrite !leb_cmp. unfold cmp.
  intros [H1|H1] [H2|H2];
    rewrite (SFcompare_trans _ _ _ _ _ H1 H2) by discriminate; tauto.
Qed.

Lemma leb_refl x : is_number x -> (x <=? x) = true.
Proof. unfold is_number. rewrite eqb_cmp, leb_cmp. tauto. Qed.

Lemma eqb_sym x y : (x =? y) = true -> (y =? x) = true.
Proof. rewrite !eqb_cmp. intros H. now apply cmp_antisym in H. Qed.

Lemma leb_antisym x y :
  (x <=? y) = true -> (y <=? x) = true -> (x =? y) = true.
Proof.
  rewrite !leb_cmp, eqb_cmp. intros [H|H] [H'|H']; try assumption;
    apply cmp_antisym in H; simpl in H; congruence.
Qed.

(** Two scores that equal a third one are not strictly ordered. *)
Lemma eqb_not_ltb x y v :
  (x =? v) = true -> (y =? v) = true -> (x <? y) = false.
Proof.
  rewrite !eqb_cmp. intros Hx Hy. apply cmp_antisym in Hy. simpl in Hy.
  apply not_true_is_false. rewrite ltb_cmp. unfold cmp in *.
  rewrite (SFcompare_trans _ _ _ _ _ Hx Hy) by discriminate. discriminate.
Qed.

End FloatOrder.

(* ================================================================== *)
(** ** [list.sort(key=score, reverse=True)] *)

Section Sorting.
Context {A : Type}.
Implicit Types (x : A * float) (l : list (A * float)) (v : float).
Import FloatOrder.

Lemma insert_desc_perm x l : Permutation (x :: l) (insert_desc x l).
Proof.
  induction l as [|y r IH]; simpl; [apply Permutation_refl|].
  destruct (snd x <? snd y)%float; [|apply Permutation_refl].
  eapply perm_trans; [apply perm_swap|]. now apply perm_skip.
Qed.

Lemma sort_desc_perm l : Permutation l (sort_desc l).
Proof.
  induction l as [|x r IH]; simpl; [constructor|].
  eapply perm_trans; [apply perm_skip, IH|apply insert_desc_perm].
Qed.

Lemma sort_desc_length l : List.length (sort_desc l) = List.length l.
Proof. symmetry. apply Permutation_length, sort_desc_perm. Qed.

Lemma insert_desc_sorted x l :
  scored_number x -> Forall scored_number l ->
  StronglySorted ranks_before l -> StronglySorted ranks_before (insert_desc x l).
Proof.
  intros Hx. induction l as [|y r IH]; intros Hl Hs; simpl.
  - repeat constructor.
  - inversion Hl as [|? ? Hy Hr]; subst.
    inversion Hs as [|? ? Hs' Hall]; subst.
    destruct (snd x <? snd y)%float eqn:E.
    + constructor; [now apply IH|].
      apply (Permutation_Forall (insert_desc_perm x r)).
      constructor; [|exact Hall].
      unfold ranks_before, score_ge. now apply ltb_leb.
    + assert (ranks_before x y) as Hxy
          by (unfold ranks_before, score_ge; now apply not_ltb_leb).
      constructor; [exact Hs|]. constructor; [exact Hxy|].
      eapply Forall_impl; [|exact Hall]. intros z Hz.
      unfold ranks_before, score_ge in *. eapply leb_trans; eassumption.
Qed.

Lemma sort_desc_sorted l :
  Forall scored_number l -> StronglySorted ranks_before (sort_desc l).
Proof.
  induction l as [|x r IH]; intros H; simpl; [constructor|].
  inversion H; subst. apply insert_desc_sorted; auto.
  apply (Permutation_Forall (sort_desc_perm r)). assumption.
Qed.

Lemma insert_desc_stable v x l :
  filter (has_score v) (insert_desc x l) = filter (has_score v) (x :: l).
Proof.
  induction l as [|y r IH]; [reflexivity|].
  cbn [insert_desc]. destruct (snd x <? snd y)%float eqn:E; [|reflexivity].
  cbn [filter] in *. rewrite IH.
  destruct (has_score v y) eqn:Ey, (has_score v x) eqn:Ex; try reflexivity.
  unfold has_score in *. rewrite (eqb_not_ltb _ _ _ Ex Ey) in E. discriminate.
Qed.

Lemma sort_desc_stable v l :
  filter (has_score v) (sort_desc l) = filter (has_score v) l.
Proof.
  induction l as [|x r IH]; [reflexivity|].
  cbn [sort_desc]. rewrite insert_desc_stable. cbn [filter]. now rewrite IH.
Qed.

(** Two descending arrangements of the same candidates that keep the
    candidates of every score in the same order are the same list. *)
Lemma sorted_stable_unique l1 l2 :
  Forall scored_number l1 -> Permutation l1 l2 ->
  StronglySorted ranks_before l1 -> StronglySorted ranks_before l2 ->
  (forall v, filter (has_score v) l1 = filter (has_score v) l2) ->
  l1 = l2.
Proof.
  revert l2. induction l1 as [|a l1 IH]; intros l2 Hn Hp S1 S2 F.
  - now apply Permutation_nil in Hp.
  - destruct l2 as [|b l2].
    { apply Permutation_sym, Permutation_nil in Hp. discriminate Hp. }
    inversion Hn as [|? ? Na Hn1]; subst.
    inversion S1 as [|? ? S1' A1]; subst.
    inversion S2 as [|? ? S2' A2]; subst.
    assert (ranks_before a b) as Hab.
    { assert (In b (a :: l1)) as [<-|Hb]
        by (eapply Permutation_in; [apply Permutation_sym, Hp|now left]).
      - now apply leb_refl.
      - rewrite Forall_forall in A1. now apply A1. }
    assert (ranks_before b a) as Hba.
    { assert (In a (b :: l2)) as [<-|Ha]
        by (eapply Permutation_in; [apply Hp|now left]).
      - now apply leb_refl.
      - rewrite Forall_forall in A2. now apply A2. }
    assert (a = b) as <-.
    { assert (has_score (snd a) a = true) as Ea by exact Na.
      assert (has_score (snd a) b = true) as Eb
        by (unfold has_score; now apply leb_antisym).
      pose proof (F (snd a)) as Fa. cbn [filter] in Fa.
      rewrite Ea, Eb in Fa. now injection Fa. }
    f_equal. apply IH; try assumption.
    + now apply Permutation_cons_inv in Hp.
    + intros v. specialize (F v). cbn [filter] in F.
      destruct (has_score v a); [now injection F|exact F].
Qed.

(** Hence the result of any stable descending sort, Python's included, is
    the list [sort_desc] computes. *)
Lemma stable_sort_unique l l' :
  Forall scored_number l -> Permutation l l' ->
  StronglySorted ranks_before l' ->
  (forall v, filter (has_score v) l' = filter (has_score v) l) ->
  l' = sort_desc l.
Proof.
  intros Hn Hp Hs F. apply sorted_stable_unique; try assumption.
  - now apply (Permutation_Forall Hp).
  - eapply perm_trans; [apply Permutation_sym, Hp|apply sort_desc_perm].
  - now apply sort_desc_sorted.
  - intros v. now rewrite F, sort_desc_stable.
Qed.

End Sorting.

Lemma slice_to_length {A} (l : list A) (stop : Z) :
  (0 <= stop)%Z ->
  slice_to l stop = firstn (Z.to_nat stop) l /\
  Z.of_nat (List.length (slice_to l stop))
  = Z.min stop (Z.of_nat (List.length l)).
Proof.
  intros H. unfold slice_to. destruct (0 <=? stop)%Z eqn:E; [|lia].
  split; [reflexivity|]. rewrite length_firstn. lia.
Qed.

(* ================================================================== *)
(** ** The relevance score *)

Lemma percentages_spec (r : Z) : (0 <= r <= 100)%Z -> In r percentages.
Proof.
  intros H. unfold percentages. rewrite <- (Z2Nat.id r) by lia.
  apply in_map, in_seq. lia.
Qed.

(** All 101^3 choices of the three percentages, with the four bonuses,
    evaluated: every sum the scorer can form is at least 0.0, so it is a
    number. *)
Lemma sums_nonneg_table :
  forallb (fun t =>
    forallb (fun a =>
      forallb (fun c =>
        forallb (fun b => (0 <=? b + (t + a + c))%float)
          [bonus false false; bonus true false; bonus false true;
           bonus true true])
        (map (weighted 0.3) percentages))
      (map (weighted 0.2) percentages))
    (map (weighted 0.4) percentages) = true.
Proof. vm_compute. reflexivity. Qed.

Lemma forallb_map_in {A B} (g : A -> B) (f : B -> bool) (l : list A) (x : A) :
  forallb f (map g l) = true -> In x l -> f (g x) = true.
Proof.
  intros H Hx. rewrite forallb_forall in H. apply H. now apply in_map.
Qed.

Lemma raw_sum_nonneg (te am : bool) (r1 r2 r3 : Z) :
  (0 <= r1 <= 100)%Z -> (0 <= r2 <= 100)%Z -> (0 <= r3 <= 100)%Z ->
  (0 <=? raw_sum te am r1 r2 r3)%float = true.
Proof.
  intros H1 H2 H3. pose proof sums_nonneg_table as T.
  apply (forallb_map_in _ _ _ r1) in T; [|now apply percentages_spec].
  apply (forallb_map_in _ _ _ r2) in T; [|now apply percentages_spec].
  apply (forallb_map_in _ _ _ r3) in T; [|now apply percentages_spec].
  rewrite forallb_forall in T. apply T. destruct te, am; simpl; auto.
Qed.

Lemma Prim2SF_one : Prim2SF 1 = S754_finite false 4503599627370496 (-52).
Proof. vm_compute. reflexivity. Qed.

Import FloatOrder.

(** A float that compares equal to a finite non-zero float is that
    float. *)
Lemma cmp_eq_finite (x y : float) (s : bool) (m : positive) (e : Z) :
  Prim2SF y = S754_finite s m e -> cmp x y = Some Eq -> x = y.
Proof.
  unfold cmp. intros E H. rewrite E in H.
  assert (Prim2SF x = S754_finite s m e) as Ex.
  { destruct (Prim2SF x) as [[]|[]| |[] m' e'], s; simpl in H;
      try discriminate;
      change (Pos.compare_cont Eq) with Pos.compare in H;
      destruct (Z.compare_spec e' e); try discriminate; subst e';
      destruct (Pos.compare_spec m' m); try discriminate; now subst m'. }
  rewrite <- (SF2Prim_Prim2SF x), <- (SF2Prim_Prim2SF y). now rewrite Ex, E.
Qed.

(** The only number that is neither below nor above 1.0 is 1.0. *)
Lemma cmp_one_eq (x : float) : cmp x 1 = Some Eq -> x = 1%float.
Proof. exact (cmp_eq_finite x 1 _ _ _ Prim2SF_one). Qed.

(** On a number, [min(1.0, s)] replaces [s] by 1.0 exactly when [s] is
    above 1.0. *)
Lemma py_min_clamp (s : float) : is_number s -> py_min 1.0 s = spec_clamp s.
Proof.
  intros Hs. unfold py_min, spec_clamp.
  destruct (s <? 1)%float eqn:E1.
  - now rewrite (ltb_asym _ _ E1).
  - destruct (1 <? s)%float eqn:E2; [reflexivity|].
    symmetry. apply cmp_one_eq.
    assert (is_number 1%float) as H1 by reflexivity.
    destruct (cmp_total s 1 Hs H1) as [[] Hc]; [exact Hc| |].
    + apply ltb_cmp in Hc. congruence.
    + apply cmp_antisym, ltb_cmp in Hc. congruence.
Qed.

Lemma py_min_in_unit (s : float) :
  (0 <=? s)%float = true -> in_unit (py_min 1.0 s).
Proof.
  intros H. unfold py_min. destruct (s <? 1)%float eqn:E.
  - split; [exact H|now apply ltb_leb].
  - split; reflexivity.
Qed.

Lemma blend_in_unit (te am : bool) (r1 r2 r3 : Z) :
  (0 <= r1 <= 100)%Z -> (0 <= r2 <= 100)%Z -> (0 <= r3 <= 100)%Z ->
  in_unit (blend te am r1 r2 r3).
Proof. intros. now apply py_min_in_unit, raw_sum_nonneg. Qed.

Lemma bonus_spec (te am : bool) :
  bonus te am
  = (0.0 + (if te then 0.5 else 0.0) + (if am then 0.3 else 0.0))%float.
Proof. destruct te, am; reflexivity. Qed.

Lemma blend_spec (te am : bool) (r1 r2 r3 : Z) :
  (0 <= r1 <= 100)%Z -> (0 <= r2 <= 100)%Z -> (0 <= r3 <= 100)%Z ->
  blend te am r1 r2 r3 =
  spec_clamp
    (spec_sum te am (float_of_int r1 / 100)%float
       (float_of_int r2 / 100)%float (float_of_int r3 / 100)%float).
Proof.
  intros H1 H2 H3. unfold blend.
  rewrite py_min_clamp
    by (eapply leb_number_r, raw_sum_nonneg; eassumption).
  unfold raw_sum, spec_sum, weighted. now rewrite bonus_spec.
Qed.

(* ================================================================== *)
(** ** The metric [indel_ratio] *)

Lemma lcs_le (a b : string) :
  lcs a b <= String.length a /\ lcs a b <= String.length b.
Proof.
  revert b. induction a as [|x a IH]; intros b; [simpl; lia|].
  induction b as [|y b IHb]; [simpl; lia|].
  change (lcs (String x a) (String y b))
    with (if Ascii.eqb x y then S (lcs a b)
          else Nat.max (lcs a (String y b)) (lcs (String x a) b)).
  destruct (Ascii.eqb x y).
  - destruct (IH b). simpl. lia.
  - destruct (IH (String y b)). simpl in *. lia.
Qed.

Lemma indel_ratio_range (a b : string) : (0 <= indel_ratio a b <= 100)%Z.
Proof.
  unfold indel_ratio. destruct (String.eqb a b); [lia|].
  destruct (_ || _)%bool eqn:E; [lia|].
  apply orb_false_elim in E as [Ea Eb].
  apply Nat.eqb_neq in Ea, Eb. destruct (lcs_le a b) as [La Lb].
  set (L := lcs a b) in *.
  set (T := Z.of_nat (String.length a + String.length b)).
  assert (0 < T)%Z by lia. assert (2 * Z.of_nat L <= T)%Z by lia.
  split.
  - apply Z.div_pos; lia.
  - apply Z.lt_succ_r, Z.div_lt_upper_bound; lia.
Qed.

Lemma indel_ratio_empty (s : string) :
  s <> "" -> indel_ratio "" s = 0%Z /\ indel_ratio s "" = 0%Z.
Proof.
  intros H. unfold indel_ratio.
  destruct (String.eqb_spec "" s) as [E|_]; [now elim H|].
  destruct (String.eqb_spec s "") as [E|_]; [now elim H|].
  simpl. rewrite orb_true_r. now split.
Qed.

(* ================================================================== *)
(** ** [calculate_relevance_score] *)

Section ScorerFacts.

Variable fuzz_ratio : string -> string -> Z.

(** The metric returns a percentage. *)
Hypothesis ratio_range : forall a b, (0 <= fuzz_ratio a b <= 100)%Z.

(** The metric's convention on empty strings. *)
Hypothesis ratio_empty_empty : fuzz_ratio "" "" = 100%Z.
Hypothesis ratio_empty_other :
  forall s, s <> "" -> fuzz_ratio "" s = 0%Z /\ fuzz_ratio s "" = 0%Z.

Lemma score_blend (query title artist : string) :
  calculate_relevance_score fuzz_ratio query title artist =
  let q := clean_string query in
  let t := clean_string title in
  let a := clean_string artist in
  blend (str_in q t || str_in t q) (str_in q a || str_in a q)
    (fuzz_ratio q t) (fuzz_ratio q a) (fuzz_ratio q (t ++ " " ++ a)%string).
Proof. reflexivity. Qed.

Lemma score_in_unit (query title artist : string) :
  in_unit (calculate_relevance_score fuzz_ratio query title artist).
Proof. rewrite score_blend. cbv zeta. apply blend_in_unit; apply ratio_range. Qed.

(** C1: the relevance score is the clamped weighted sum of the
    specification, computed from the normalized query, title and artist:
    0.5 is added when the normalized query and title contain one another
    (either way), 0.3 when the normalized query and artist do, then
    titleFuzzy * 0.4 + artistFuzzy * 0.2 + combinedFuzzy * 0.3, where
    combinedFuzzy compares the query with title, one space, artist; a sum
    above 1.0 becomes 1.0.  The equality is one of binary64 values. *)
Theorem relevance_score_is_clamped_weighted_sum
  (query title artist : string) (titleExact artistMatch : bool) :
  let q := clean_string query in
  let t := clean_string title in
  let a := clean_string artist in
  (titleExact = true <-> Substring q t \/ Substring t q) ->
  (artistMatch = true <-> Substring q a \/ Substring a q) ->
  calculate_relevance_score fuzz_ratio query title artist =
  spec_clamp
    (spec_sum titleExact artistMatch
       (similarity fuzz_ratio q t)
       (similarity fuzz_ratio q a)
       (similarity fuzz_ratio q (t ++ " " ++ a)%string)).
Proof.
  intros q t a Ht Ha. rewrite score_blend. cbv zeta. fold q t a.
  assert (forall x y, (str_in x y || str_in y x)%bool = true
                      <-> Substring x y \/ Substring y x) as R.
  { intros x y. rewrite orb_true_iff, !str_in_spec. tauto. }
  rewrite (bool_reflects _ _ _ (R q t) Ht), (bool_reflects _ _ _ (R q a) Ha).
  unfold similarity. apply blend_spec; apply ratio_range.
Qed.

(** C4: the score is a value of [0.0, 1.0] for all strings, empty ones
    included, and a metric with the stated convention gives the scorer the
    similarity 1.0 for two empty strings and 0.0 for an empty and a
    non-empty one; three empty strings score 1.0. *)
Theorem score_defined_on_all_inputs :
  (forall query title artist,
      in_unit (calculate_relevance_score fuzz_ratio query title artist)) /\
  similarity fuzz_ratio "" "" = 1%float /\
  (forall s, s <> "" ->
     similarity fuzz_ratio "" s = 0%float /\
     similarity fuzz_ratio s "" = 0%float) /\
  calculate_relevance_score fuzz_ratio "" "" "" = 1%float.
Proof.
  split; [exact score_in_unit|]. split; [|split].
  - unfold similarity. now rewrite ratio_empty_empty.
  - intros s Hs. unfold similarity.
    destruct (ratio_empty_other s Hs) as [-> ->]. now split.
  - rewrite score_blend. cbv zeta.
    change (clean_string "") with "". cbn [String.append].
    rewrite ratio_empty_empty.
    destruct (ratio_empty_other (" ")%string) as [-> _]; [discriminate|].
    reflexivity.
Qed.

End ScorerFacts.

(** C1 at the query and title "Bohemian Rhapsody" by "Queen", with the
    metric [indel_ratio]: the title matches and the artist does not. *)
Lemma relevance_score_witness :
  calculate_relevance_score indel_ratio "Bohemian Rhapsody"
    "Bohemian Rhapsody" "Queen"
  = spec_clamp
      (spec_sum true false
         (similarity indel_ratio "bohemian rhapsody" "bohemian rhapsody")
         (similarity indel_ratio "bohemian rhapsody" "queen")
         (similarity indel_ratio "bohemian rhapsody"
            "bohemian rhapsody queen")).
Proof.
  apply (relevance_score_is_clamped_weighted_sum indel_ratio indel_ratio_range
           "Bohemian Rhapsody" "Bohemian Rhapsody" "Queen" true false).
  - split; [intros _|reflexivity]. left. now exists "", "".
  - rewrite <- !str_in_spec. vm_compute. intuition discriminate.
Defined.

(** C4 with the metric [indel_ratio], which follows the convention. *)
Lemma score_defined_witness :
  in_unit (calculate_relevance_score indel_ratio "" "Bohemian Rhapsody" "") /\
  calculate_relevance_score indel_ratio "" "" "" = 1%float.
Proof.
  pose proof (score_defined_on_all_inputs indel_ratio indel_ratio_range
                eq_refl indel_ratio_empty) as (H & _ & _ & E).
  split; [apply H|exact E].
Defined.

(* ================================================================== *)
(** ** [search_mixed] *)

Lemma for_each_all_ok {A B} (body : A -> result B) (items : list A)
  (acc : list B) :
  Forall (fun x => exists y, body x = Ok y) items ->
  exists ys,
    Forall2 (fun x y => body x = Ok y) items ys /\
    for_each body items acc = Ok (acc ++ ys).
Proof.
  intros H. revert acc. induction H as [|x rest [y Hy] _ IH]; intros acc.
  - exists []. split; [constructor|]. simpl. now rewrite app_nil_r.
  - destruct (IH (acc ++ [y])) as (ys & F & E).
    exists (y :: ys). split; [now constructor|].
    simpl. rewrite Hy, E. now rewrite <- app_assoc.
Qed.

Lemma for_each_raises {A B} (body : A -> result B) (items : list A)
  (acc : list B) (e : exn) :
  Forall (fun x => (exists y, body x = Ok y) \/ body x = Raise e) items ->
  Exists (fun x => body x = Raise e) items ->
  for_each body items acc = Raise e.
Proof.
  intros H. revert acc. induction H as [|x rest Hx _ IH]; intros acc Hex.
  - inversion Hex.
  - simpl. destruct Hx as [[y Hy]|Hx]; [|now rewrite Hx].
    rewrite Hy. apply IH. inversion Hex; subst; [congruence|assumption].
Qed.

Lemma Forall2_In_right {A B} (R : A -> B -> Prop) (l : list A) (l' : list B)
  (y : B) :
  Forall2 R l l' -> In y l' -> exists x, In x l /\ R x y.
Proof.
  induction 1 as [|x y' l l' Hxy _ IH]; simpl; [tauto|].
  intros [->|Hy]; [now exists x; auto|].
  destruct (IH Hy) as (x' & Hx' & Hr). exists x'. auto.
Qed.

Lemma join_two_longer (x y : string) (rest : list string) :
  String.length x < String.length (join ", " (x :: y :: rest)).
Proof.
  unfold join. change (String.concat ", " (x :: y :: rest))
    with (x ++ ", " ++ String.concat ", " (y :: rest))%string.
  rewrite !append_length. simpl. lia.
Qed.

Section FuserFacts.

Variable fuzz_ratio : string -> string -> Z.
Hypothesis ratio_range : forall a b, (0 <= fuzz_ratio a b <= 100)%Z.

Lemma process_track_cases (q : string) (t : Track) :
  match track_artists t with
  | a0 :: _ =>
      exists md,
        process_track fuzz_ratio q t = Ok (OfTrack md, calculate_relevance_score fuzz_ratio q (track_name t) (artist_name a0)) /\
        TrackMetadata.title md = track_name t /\
        TrackMetadata.artist md = join ", " (map artist_name (track_artists t))
  | [] => process_track fuzz_ratio q t = Raise IndexError
  end.
Proof.
  unfold process_track. destruct (track_artists t) as [|a0 rest].
  - reflexivity.
  - eexists. split; [reflexivity|]. split; reflexivity.
Qed.

Lemma process_album_cases (q : string) (al : Album) :
  match album_artists al with
  | a0 :: _ =>
      exists md,
        process_album fuzz_ratio q al = Ok (OfAlbum md, calculate_relevance_score fuzz_ratio q (album_name al) (artist_name a0)) /\
        AlbumMetadata.title md = album_name al /\
        AlbumMetadata.artist md = join ", " (map artist_name (album_artists al))
  | [] => process_album fuzz_ratio q al = Raise IndexError
  end.
Proof.
  unfold process_album. destruct (album_artists al) as [|a0 rest].
  - reflexivity.
  - eexists. split; [reflexivity|]. split; reflexivity.
Qed.

Lemma process_track_number (q : string) (t : Track) (p : Metadata * float) :
  process_track fuzz_ratio q t = Ok p -> in_unit (snd p).
Proof.
  pose proof (process_track_cases q t) as H.
  destruct (track_artists t); [congruence|].
  destruct H as (md & -> & _). intros [= <-]. apply score_in_unit, ratio_range.
Qed.

Lemma process_album_number (q : string) (al : Album) (p : Metadata * float) :
  process_album fuzz_ratio q al = Ok p -> in_unit (snd p).
Proof.
  pose proof (process_album_cases q al) as H.
  destruct (album_artists al); [congruence|].
  destruct H as (md & -> & _). intros [= <-]. apply score_in_unit, ratio_range.
Qed.

(** What [search_mixed] does once both searches have returned. *)
Lemma search_mixed_run (sp : Spotify) (q : string) (limit : Z)
  (log : list Request) (ts : list Track) (als : list Album) :
  catalog_returns sp q limit ts als ->
  search_mixed fuzz_ratio sp q limit log =
  (log ++ [track_request q limit; album_request q limit],
   (mixed_results <- for_each (process_track fuzz_ratio q) ts [] ;;
    mixed_results <- for_each (process_album fuzz_ratio q) als mixed_results ;;
    Ok (map fst (slice_to (sort_desc mixed_results) limit)))%py).
Proof.
  intros [(r1 & H1 & T1) (r2 & H2 & T2)].
  unfold track_request, album_request in *.
  unfold search_mixed, io_try_reraise, io_bind, search, io_lift.
  rewrite H1, H2, T1, T2, <- app_assoc. simpl.
  destruct (for_each _ ts []) as [m1|e]; simpl; [|reflexivity].
  destruct (for_each _ als m1) as [m2|e]; reflexivity.
Qed.

Lemma for_each_ok_or_raises {A B} (body : A -> result B) (items : list A)
  (acc : list B) (e : exn) :
  Forall (fun x => (exists y, body x = Ok y) \/ body x = Raise e) items ->
  (exists ys, for_each body items acc = Ok ys) \/
  for_each body items acc = Raise e.
Proof.
  intros H. revert acc. induction H as [|x rest Hx _ IH]; intros acc; simpl.
  - left. now exists acc.
  - destruct Hx as [[y ->] | ->]; [apply IH|now right].
Qed.

Lemma track_ok_or_index_error (q : string) (ts : list Track) :
  Forall (fun t => (exists y, process_track fuzz_ratio q t = Ok y)
                   \/ process_track fuzz_ratio q t = Raise IndexError) ts.
Proof.
  apply Forall_forall. intros t _. pose proof (process_track_cases q t) as H.
  destruct (track_artists t); [now right|].
  destruct H as (md & H & _). left. eauto.
Qed.

Lemma album_ok_or_index_error (q : string) (als : list Album) :
  Forall (fun a => (exists y, process_album fuzz_ratio q a = Ok y)
                   \/ process_album fuzz_ratio q a = Raise IndexError) als.
Proof.
  apply Forall_forall. intros a _. pose proof (process_album_cases q a) as H.
  destruct (album_artists a); [now right|].
  destruct H as (md & H & _). left. eauto.
Qed.

Lemma tracks_all_ok (q : string) (ts : list Track) :
  Forall (fun t => track_artists t <> []) ts ->
  Forall (fun t => exists y, process_track fuzz_ratio q t = Ok y) ts.
Proof.
  apply Forall_impl. intros t Ht. pose proof (process_track_cases q t) as H.
  destruct (track_artists t); [now elim Ht|].
  destruct H as (md & H & _). eauto.
Qed.

Lemma albums_all_ok (q : string) (als : list Album) :
  Forall (fun a => album_artists a <> []) als ->
  Forall (fun a => exists y, process_album fuzz_ratio q a = Ok y) als.
Proof.
  apply Forall_impl. intros a Ha. pose proof (process_album_cases q a) as H.
  destruct (album_artists a); [now elim Ha|].
  destruct H as (md & H & _). eauto.
Qed.

(** C2: when both searches return and every candidate lists an artist,
    [search_mixed] returns the scored candidates (tracks in provider
    order, then albums in provider order) sorted by descending score,
    cut to the first [limit] entries, scores stripped.  The sort is
    stable: the candidates of any one score keep their order, tracks
    before albums.  The result has min(limit, candidates found) entries,
    at most [limit]. *)
Theorem search_mixed_ranks_and_truncates
  (sp : Spotify) (q : string) (limit : Z) (log : list Request)
  (ts : list Track) (als : list Album) :
  (0 <= limit)%Z ->
  catalog_returns sp q limit ts als ->
  Forall (fun t => track_artists t <> []) ts ->
  Forall (fun a => album_artists a <> []) als ->
  exists (st sa : list (Metadata * float)) (results : list Metadata),
    Forall2 (fun t p => process_track fuzz_ratio q t = Ok p) ts st /\
    Forall2 (fun a p => process_album fuzz_ratio q a = Ok p) als sa /\
    snd (search_mixed fuzz_ratio sp q limit log) = Ok results /\
    results = map fst (firstn (Z.to_nat limit) (sort_desc (st ++ sa))) /\
    Permutation (st ++ sa) (sort_desc (st ++ sa)) /\
    StronglySorted ranks_before (sort_desc (st ++ sa)) /\
    (forall v, filter (has_score v) (sort_desc (st ++ sa))
               = filter (has_score v) st ++ filter (has_score v) sa) /\
    Z.of_nat (List.length results)
    = Z.min limit (Z.of_nat (List.length ts + List.length als)) /\
    (Z.of_nat (List.length results) <= limit)%Z.
Proof.
  intros Hl Hc Ht Ha.
  destruct (for_each_all_ok _ ts [] (tracks_all_ok q ts Ht)) as (st & Fst & Et).
  destruct (for_each_all_ok _ als ([] ++ st) (albums_all_ok q als Ha))
    as (sa & Fsa & Ea).
  simpl in Et, Ea.
  destruct (slice_to_length (sort_desc (st ++ sa)) limit Hl) as [Es El].
  exists st, sa, (map fst (firstn (Z.to_nat limit) (sort_desc (st ++ sa)))).
  repeat split; try assumption.
  - rewrite (search_mixed_run sp q limit log ts als Hc). simpl.
    rewrite Et. simpl. rewrite Ea. simpl. now rewrite Es.
  - apply sort_desc_perm.
  - apply sort_desc_sorted, Forall_app. split.
    + apply Forall_forall. intros p Hp.
      destruct (Forall2_In_right _ _ _ p Fst Hp) as (t & _ & E).
      eapply FloatOrder.in_unit_number, process_track_number, E.
    + apply Forall_forall. intros p Hp.
      destruct (Forall2_In_right _ _ _ p Fsa Hp) as (a & _ & E).
      eapply FloatOrder.in_unit_number, process_album_number, E.
  - intros v. now rewrite sort_desc_stable, filter_app.
  - rewrite length_map, <- Es, El, sort_desc_length, length_app.
    now rewrite <- (Forall2_length Fst), <- (Forall2_length Fsa).
  - rewrite length_map, <- Es, El. lia.
Qed.

(** C5: the track search is asked for max(5, limit // 2) items and the
    album search, issued once the track search has returned, for
    max(3, limit // 3) items; for a limit of 10 these are 5 and 3.  No
    other request is issued. *)
Theorem search_mixed_requests
  (sp : Spotify) (q : string) (limit : Z) (log : list Request) :
  fst (search_mixed fuzz_ratio sp q limit log) =
  log ++
  {| req_q := q; req_type := type_track; req_limit := Z.max 5 (limit / 2) |}
  :: match sp {| req_q := q; req_type := type_track;
                 req_limit := Z.max 5 (limit / 2) |} with
     | Ok _ =>
         [{| req_q := q; req_type := type_album;
             req_limit := Z.max 3 (limit / 3) |}]
     | Raise _ => []
     end
  /\
  fst (search_mixed fuzz_ratio sp q 10 log) =
  log ++
  {| req_q := q; req_type := type_track; req_limit := 5 |}
  :: match sp {| req_q := q; req_type := type_track; req_limit := 5 |} with
     | Ok _ => [{| req_q := q; req_type := type_album; req_limit := 3 |}]
     | Raise _ => []
     end.
Proof.
  assert (forall l,
    fst (search_mixed fuzz_ratio sp q l log) =
    log ++
    {| req_q := q; req_type := type_track; req_limit := Z.max 5 (l / 2) |}
    :: match sp {| req_q := q; req_type := type_track;
                   req_limit := Z.max 5 (l / 2) |} with
       | Ok _ =>
           [{| req_q := q; req_type := type_album;
               req_limit := Z.max 3 (l / 3) |}]
       | Raise _ => []
       end) as H.
  { intros l. unfold search_mixed, io_try_reraise, io_bind, search, io_lift.
    destruct (sp {| req_type := type_track |}) as [r1|e]; [|reflexivity].
    destruct (sp {| req_type := type_album |}) as [r2|e]; simpl;
      [destruct (bind (getitem (tracks_items r1)) _)|]; simpl;
      now rewrite <- app_assoc. }
  split; [apply H|apply (H 10%Z)].
Qed.

(** C6: in a run of [search_mixed] that returns, the list that is sorted
    and cut holds one pair for every track and every album found.  The
    score of the pair, the key of the sort, is computed from the query,
    the candidate's title and the name of its first artist only; the
    artist field of the pair's metadata is the names of all its artists
    joined by ", " in provider order.  The two strings differ as soon as
    the candidate has a second artist. *)
Theorem scoring_uses_first_artist_only
  (sp : Spotify) (q : string) (limit : Z) (log : list Request)
  (ts : list Track) (als : list Album) :
  catalog_returns sp q limit ts als ->
  Forall (fun t => track_artists t <> []) ts ->
  Forall (fun a => album_artists a <> []) als ->
  exists (st sa : list (Metadata * float)),
    snd (search_mixed fuzz_ratio sp q limit log)
    = Ok (map fst (slice_to (sort_desc (st ++ sa)) limit)) /\
    Forall2
      (fun t p =>
         exists a0 rest md,
           track_artists t = a0 :: rest /\
           p = (OfTrack md,
                calculate_relevance_score fuzz_ratio q (track_name t)
                  (artist_name a0)) /\
           TrackMetadata.title md = track_name t /\
           TrackMetadata.artist md
           = join ", " (artist_name a0 :: map artist_name rest) /\
           (rest <> [] -> TrackMetadata.artist md <> artist_name a0))
      ts st /\
    Forall2
      (fun al p =>
         exists a0 rest md,
           album_artists al = a0 :: rest /\
           p = (OfAlbum md,
                calculate_relevance_score fuzz_ratio q (album_name al)
                  (artist_name a0)) /\
           AlbumMetadata.title md = album_name al /\
           AlbumMetadata.artist md
           = join ", " (artist_name a0 :: map artist_name rest) /\
           (rest <> [] -> AlbumMetadata.artist md <> artist_name a0))
      als sa.
Proof.
  intros Hc Ht Ha.
  assert (forall x rest, rest <> [] ->
            join ", " (artist_name x :: map artist_name rest)
            <> artist_name x) as D.
  { intros x [|y rest] N; [now elim N|]. intros E.
    pose proof (join_two_longer (artist_name x) (artist_name y)
                  (map artist_name rest)) as L.
    simpl map in E. rewrite E in L. lia. }
  destruct (for_each_all_ok _ ts [] (tracks_all_ok q ts Ht)) as (st & Fst & Et).
  destruct (for_each_all_ok _ als ([] ++ st) (albums_all_ok q als Ha))
    as (sa & Fsa & Ea).
  simpl in Et, Ea. exists st, sa. split; [|split].
  - rewrite (search_mixed_run sp q limit log ts als Hc). simpl.
    rewrite Et. simpl. now rewrite Ea.
  - eapply Forall2_impl; [|exact Fst]. intros t p E. cbv beta in E.
    pose proof (process_track_cases q t) as H.
    destruct (track_artists t) as [|a0 rest]; [congruence|].
    destruct H as (md & H1 & H2 & H3). rewrite H1 in E. injection E as <-.
    exists a0, rest, md. simpl map in H3.
    repeat split; try assumption. rewrite H3. apply D.
  - eapply Forall2_impl; [|exact Fsa]. intros al p E. cbv beta in E.
    pose proof (process_album_cases q al) as H.
    destruct (album_artists al) as [|a0 rest]; [congruence|].
    destruct H as (md & H1 & H2 & H3). rewrite H1 in E. injection E as <-.
    exists a0, rest, md. simpl map in H3.
    repeat split; try assumption. rewrite H3. apply D.
Qed.

(** C10: with both searches returned, the lookup of the first artist
    succeeds for every candidate that lists an artist, so [search_mixed]
    returns; a single track or album with an empty artist list makes the
    whole call raise [IndexError]: nothing is skipped and no partial
    result is returned. *)
Theorem first_artist_lookup
  (sp : Spotify) (q : string) (limit : Z) (log : list Request)
  (ts : list Track) (als : list Album) :
  catalog_returns sp q limit ts als ->
  (Forall (fun t => track_artists t <> []) ts ->
   Forall (fun a => album_artists a <> []) als ->
   exists results, snd (search_mixed fuzz_ratio sp q limit log) = Ok results) /\
  (Exists (fun t => track_artists t = []) ts \/
   Exists (fun a => album_artists a = []) als ->
   snd (search_mixed fuzz_ratio sp q limit log) = Raise IndexError).
Proof.
  intros Hc. rewrite (search_mixed_run sp q limit log ts als Hc). simpl.
  split.
  - intros Ht Ha.
    destruct (for_each_all_ok _ ts [] (tracks_all_ok q ts Ht)) as (st & _ & ->).
    simpl.
    destruct (for_each_all_ok _ als st (albums_all_ok q als Ha))
      as (sa & _ & ->).
    simpl. eauto.
  - assert (forall acc, Exists (fun a => album_artists a = []) als ->
              for_each (process_album fuzz_ratio q) als acc = Raise IndexError)
      as Halb.
    { intros acc Hex. apply for_each_raises; [apply album_ok_or_index_error|].
      eapply Exists_impl; [|exact Hex]. intros a Ha.
      pose proof (process_album_cases q a) as H. now rewrite Ha in H. }
    destruct (for_each_ok_or_raises _ ts [] IndexError
                (track_ok_or_index_error q ts)) as [[st Est]|Est];
      rewrite Est; simpl; [|reflexivity].
    intros [Hex|Hex]; [|now rewrite Halb].
    exfalso.
    rewrite (for_each_raises _ ts [] IndexError
               (track_ok_or_index_error q ts)) in Est; [discriminate|].
    eapply Exists_impl; [|exact Hex]. intros t Ht.
    pose proof (process_track_cases q t) as H. now rewrite Ht in H.
Qed.

End FuserFacts.

(** C2 on the test catalog: one track and one album are found for "test"
    and both are returned for a limit of 10. *)
Lemma search_mixed_ranks_witness :
  exists results,
    snd (search_mixed indel_ratio test_catalog "test" 10 []) = Ok results /\
    Z.of_nat (List.length results) = 2%Z.
Proof.
  destruct (search_mixed_ranks_and_truncates indel_ratio indel_ratio_range
              test_catalog "test" 10 [] [test_track] [test_album])
    as (st & sa & results & _ & _ & E & _ & _ & _ & _ & L & _).
  - lia.
  - split; eexists; split; reflexivity.
  - repeat constructor; discriminate.
  - repeat constructor; discriminate.
  - exists results. split; [exact E|exact L].
Defined.

(** C6 on the test catalog: its track lists two artists; the pair that
    [search_mixed] ranks for it is scored with the first one and shows
    both. *)
Lemma scoring_uses_first_artist_witness :
  exists st sa md,
    snd (search_mixed indel_ratio test_catalog "test" 10 [])
    = Ok (map fst (slice_to (sort_desc (st ++ sa)) 10)) /\
    st = [(OfTrack md,
           calculate_relevance_score indel_ratio "test" "Test Song"
             "Test Artist")] /\
    TrackMetadata.artist md = "Test Artist, Guest" /\
    TrackMetadata.artist md <> "Test Artist".
Proof.
  destruct (scoring_uses_first_artist_only indel_ratio test_catalog "test" 10
              [] [test_track] [test_album])
    as (st & sa & E & Ft & _).
  - split; eexists; split; reflexivity.
  - repeat constructor; discriminate.
  - repeat constructor; discriminate.
  - inversion Ft as [|t p ts' st' Hp Hrest]; subst.
    inversion Hrest; subst.
    destruct Hp as (a0 & rest & md & Ea & Ep & _ & Eart & Hne).
    simpl in Ea. injection Ea as <- <-.
    exists [p], sa, md. split; [exact E|]. split; [now rewrite Ep|].
    split; [exact Eart|]. apply Hne. discriminate.
Defined.

(** C10 on the test catalog, where every candidate lists an artist, and on
    the catalog whose album lists none. *)
Lemma first_artist_lookup_witness :
  (exists results,
     snd (search_mixed indel_ratio test_catalog "test" 10 []) = Ok results) /\
  snd (search_mixed indel_ratio orphan_catalog "test" 10 []) = Raise IndexError.
Proof.
  split.
  - apply (first_artist_lookup indel_ratio test_catalog "test" 10 []
             [test_track] [test_album]).
    + split; eexists; split; reflexivity.
    + repeat constructor; discriminate.
    + repeat constructor; discriminate.
  - apply (first_artist_lookup indel_ratio orphan_catalog "test" 10 []
             [test_track] [orphan_album]).
    + split; eexists; split; reflexivity.
    + right. now constructor.
Defined.

(* ================================================================== *)
(** ** [SongLinkService] *)

(** The fallback object [DSPLinks(spotify=spotify_url)] cannot be built:
    six required fields are left out. *)
Lemma DSPLinks_fallback_refused (spotify_url : string) :
  DSPLinks.init (Some (JStr spotify_url)) None None None None None None
  = Raise ValidationError.
Proof. reflexivity. Qed.

(** It is built once the six other fields are passed, as [None]. *)
Lemma DSPLinks_fallback_with_all_fields (spotify_url : string) :
  DSPLinks.init (Some (JStr spotify_url)) (Some JNull) (Some JNull)
    (Some JNull) (Some JNull) (Some JNull) (Some JNull)
  = Ok (DSPLinks.mk (Some spotify_url) None None None None None None).
Proof. reflexivity. Qed.

(** Whenever the provider does not answer 200, [get_platform_links] ends
    in the construction of the fallback object, inside the [try] or in the
    handler, and that construction raises. *)
Lemma get_platform_links_on_failure (http : SongLink) (spotify_url : string) :
  provider_failed http spotify_url ->
  get_platform_links http spotify_url = Raise ValidationError.
Proof.
  unfold provider_failed, get_platform_links.
  destruct (http (api_url_of spotify_url)) as [r|e]; simpl; [|reflexivity].
  intros H. apply Z.eqb_neq in H. now rewrite H.
Qed.

(** The page URL does fall back to the song.link address of the source. *)
Lemma get_songlink_page_url_on_failure (http : SongLink) (spotify_url : string) :
  provider_failed http spotify_url ->
  get_songlink_page_url http spotify_url
  = Ok (JStr ("https://song.link/" ++ spotify_url)%string).
Proof.
  unfold provider_failed, get_songlink_page_url.
  destruct (http (api_url_of spotify_url)) as [r|e]; simpl; [|reflexivity].
  intros H. apply Z.eqb_neq in H. now rewrite H.
Qed.

(** The detailed mapping does fall back to the source URL under spotify. *)
Lemma get_detailed_platform_data_on_failure (http : SongLink)
  (spotify_url : string) :
  provider_failed http spotify_url ->
  get_detailed_platform_data http spotify_url
  = Ok (DetailedPlatformLinks.mk
          (Some (PlatformInfo.mk (Some spotify_url) None (Some "US")))
          None None None None None None None None).
Proof.
  unfold provider_failed, get_detailed_platform_data.
  destruct (http (api_url_of spotify_url)) as [r|e]; simpl; [|reflexivity].
  intros H. apply Z.eqb_neq in H. now rewrite H.
Qed.

(** C7, the code at a failing provider: for a 404 answer and for a
    transport failure [get_platform_links] raises [ValidationError]
    instead of returning the source URL under spotify, while
    [get_songlink_page_url] returns "https://song.link/" followed by the
    source URL. *)
Theorem basic_links_fallback_raises :
  get_platform_links not_found test_url = Raise ValidationError /\
  get_platform_links unreachable test_url = Raise ValidationError /\
  get_songlink_page_url not_found test_url
  = Ok (JStr "https://song.link/https://open.spotify.com/track/t1") /\
  get_songlink_page_url unreachable test_url
  = Ok (JStr "https://song.link/https://open.spotify.com/track/t1").
Proof. repeat split; reflexivity. Qed.

(** C8, the code at a 200 answer whose mapping lists no platform: the
    detailed result holds six platform entries and not one URL; the basic
    result keeps the source URL there, and raises when the provider
    fails. *)
Theorem detailed_links_all_absent :
  (exists l,
     get_detailed_platform_data empty_mapping test_url = Ok l /\
     some_present (DetailedPlatformLinks.urls l) = false) /\
  (exists l,
     get_platform_links empty_mapping test_url = Ok l /\
     DSPLinks.spotify l = Some test_url) /\
  get_platform_links not_found test_url = Raise ValidationError.
Proof.
  split; [|split].
  - eexists. split; reflexivity.
  - eexists. split; reflexivity.
  - reflexivity.
Qed.

(* ================================================================== *)
(** ** The confidence score *)

Lemma truthy_spec (link : option string) :
  truthy link = true <-> exists s, link = Some s /\ s <> "".
Proof.
  destruct link as [s|]; simpl.
  - destruct (String.eqb_spec s ""); simpl; split.
    + discriminate.
    + intros (s' & [= <-] & N). now elim N.
    + intros _. now exists s.
    + reflexivity.
  - split; [discriminate|]. now intros (s & H & _).
Qed.

(** C9, counterexample: a match result whose Apple Music link is present
    and empty (the provider answered 200 with such a URL) has one
    non-absent link, so the stated formula gives 0.58, while the code does
    not count it and gives 0.5. *)
Lemma confidence_ignores_empty_link :
  get_platform_links empty_apple test_url = Ok empty_apple_link /\
  spec_platform_count empty_apple_link = 1%Z /\
  platform_count empty_apple_link = 0%Z /\
  spec_confidence empty_apple_link = 0.58%float /\
  confidence_score empty_apple_link = 0.5%float /\
  confidence_score empty_apple_link <> spec_confidence empty_apple_link.
Proof.
  split; [reflexivity|].
  split; [reflexivity|]. split; [reflexivity|]. split; [reflexivity|].
  split; [reflexivity|]. intros H.
  apply (f_equal (fun x => (x <? 0.55)%float)) in H. discriminate H.
Qed.

(** C9, amended: the confidence score is min(0.95, 0.5 + platformCount *
    0.08) where platformCount is the number of links among apple_music,
    youtube_music, deezer, amazon_music, tidal and soundcloud that are
    present and not the empty string (spotify is not counted); no such
    link gives 0.5 and six give 0.95, clamped from 0.98. *)
Theorem confidence_score_counts_nonempty_links (l : DSPLinks.t) :
  (forall link, truthy link = true <-> exists s, link = Some s /\ s <> "") /\
  platform_count l
  = (Z.b2z (truthy (DSPLinks.apple_music l))
     + Z.b2z (truthy (DSPLinks.youtube_music l))
     + Z.b2z (truthy (DSPLinks.deezer l))
     + Z.b2z (truthy (DSPLinks.amazon_music l))
     + Z.b2z (truthy (DSPLinks.tidal l))
     + Z.b2z (truthy (DSPLinks.soundcloud l)))%Z /\
  confidence_score l
  = py_min 0.95 (0.5 + float_of_int (platform_count l) * 0.08)%float /\
  confidence_score l
  = nth (Z.to_nat (platform_count l))
      [0.5; 0.58; 0.66; 0.74; 0.8200000000000001; 0.9; 0.95]%float 0%float /\
  (platform_count l = 0%Z -> confidence_score l = 0.5%float) /\
  (platform_count l = 6%Z -> confidence_score l = 0.95%float) /\
  (0.5 + float_of_int 6 * 0.08 = 0.98)%float.
Proof.
  split; [exact truthy_spec|].
  unfold confidence_score, platform_count. simpl filter.
  destruct (truthy (DSPLinks.apple_music l)),
    (truthy (DSPLinks.youtube_music l)), (truthy (DSPLinks.deezer l)),
    (truthy (DSPLinks.amazon_music l)), (truthy (DSPLinks.tidal l)),
    (truthy (DSPLinks.soundcloud l));
    repeat split; try reflexivity; intros H; discriminate H.
Qed.

(** The amended C9 on a result that carries the source link only, and on
    one with all six other links. *)
Lemma confidence_score_witness :
  confidence_score
    (DSPLinks.mk (Some test_url) None None None None None None) = 0.5%float /\
  confidence_score
    (DSPLinks.mk (Some test_url) (Some "a") (Some "b") (Some "c") (Some "d")
       (Some "e") (Some "f")) = 0.95%float.
Proof.
  split.
  - apply (confidence_score_counts_nonempty_links
             (DSPLinks.mk (Some test_url) None None None None None None)).
    reflexivity.
  - apply (confidence_score_counts_nonempty_links
             (DSPLinks.mk (Some test_url) (Some "a") (Some "b") (Some "c")
                (Some "d") (Some "e") (Some "f"))).
    reflexivity.
Defined.

(* ################################################################## *)
(** * Further properties of the services *)

(* ================================================================== *)
(** ** The normal form [clean_string] produces *)

Lemma is_space_fixed_by_lower (c : ascii) :
  is_space c = true -> lower_char c = c.
Proof. destruct c as [[] [] [] [] [] [] [] []]; intros H; try reflexivity; discriminate H. Qed.

Lemma lower_char_close (c : ascii) :
  Ascii.eqb (lower_char c) ")" = Ascii.eqb c ")" /\
  Ascii.eqb (lower_char c) "010" = Ascii.eqb c "010".
Proof. destruct c as [[] [] [] [] [] [] [] []]; split; reflexivity. Qed.

Lemma single_spaced_lower (b : bool) (s : string) :
  single_spaced b (lower s) = single_spaced b s.
Proof.
  revert b. induction s as [|c r IH]; intros b; simpl; [reflexivity|].
  rewrite is_space_lower_char. destruct (is_space c) eqn:E.
  - rewrite (is_space_fixed_by_lower c E). now rewrite IH.
  - apply IH.
Qed.

Lemma match_literal_ci_lower (lit s : string) :
  match_literal_ci lit (lower s) = option_map lower (match_literal_ci lit s).
Proof.
  revert s. induction lit as [|p lit IH]; intros s; [reflexivity|].
  destruct s as [|c s]; simpl; [reflexivity|].
  rewrite lower_char_idem. destruct (Ascii.eqb _ _); [apply IH|reflexivity].
Qed.

Lemma match_lazy_close_lower (s : string) :
  match_lazy_close (lower s) = option_map lower (match_lazy_close s).
Proof.
  induction s as [|c s IH]; simpl; [reflexivity|].
  destruct (lower_char_close c) as [-> ->].
  destruct (Ascii.eqb c ")"); [reflexivity|].
  destruct (Ascii.eqb c "010"); [reflexivity|exact IH].
Qed.

Lemma alternative_lower (lit s : string) :
  and_then (match_literal_ci lit (lower s)) match_lazy_close
  = option_map lower (and_then (match_literal_ci lit s) match_lazy_close).
Proof.
  rewrite match_literal_ci_lower.
  destruct (match_literal_ci lit s) as [r|]; cbn [and_then option_map];
    [apply match_lazy_close_lower|reflexivity].
Qed.

Lemma match_feat_lower (s : string) :
  match_feat (lower s) = option_map lower (match_feat s).
Proof.
  unfold match_feat. rewrite !alternative_lower.
  destruct (and_then (match_literal_ci "(feat." s) match_lazy_close);
    reflexivity.
Qed.

Lemma sub_feat_from_lower (k : nat) (s : string) :
  sub_feat_from k (lower s) = lower (sub_feat_from k s).
Proof.
  revert k. induction s as [|c r IH]; intros k; [reflexivity|].
  change (lower (String c r)) with (String (lower_char c) (lower r)).
  cbn [sub_feat_from]. destruct k as [|k]; [|apply IH].
  change (String (lower_char c) (lower r)) with (lower (String c r)).
  rewrite match_feat_lower.
  destruct (match_feat (String c r)) as [rest|]; simpl.
  - rewrite !lower_length. apply IH.
  - now rewrite IH.
Qed.

(** The normal form is lower case, trimmed and single spaced: lowering or
    stripping it again changes nothing, and its only white space is single
    spaces between other characters. *)
Theorem clean_string_normal_form (s : string) :
  lower (clean_string s) = clean_string s /\
  strip (clean_string s) = clean_string s /\
  single_spaced false (clean_string s) = true.
Proof.
  unfold clean_string. repeat split.
  - apply lower_idem.
  - now rewrite strip_lower, strip_idem.
  - rewrite single_spaced_lower. unfold strip, sub_ws.
    apply (single_spaced_lstrip false), single_spaced_rstrip,
      single_spaced_sub_ws.
Qed.

Lemma clean_string_lower (s : string) :
  clean_string (lower s) = clean_string s.
Proof.
  unfold clean_string, sub_feat, sub_ws.
  rewrite sub_feat_from_lower, sub_ws_lower, strip_lower. apply lower_idem.
Qed.

(** On text of code points below 256, the alphabet of [string],
    normalization does not see the case of its input, and neither does the
    relevance score, whatever the metric: there [str.lower] maps character
    by character and the pattern matches a lowered text where it matched
    the text.  Nothing is stated for other text. *)
Theorem normalization_ignores_case :
  (forall s, clean_string (lower s) = clean_string s) /\
  (forall (fuzz_ratio : string -> string -> Z) (query title artist : string),
     calculate_relevance_score fuzz_ratio (lower query) (lower title)
       (lower artist)
     = calculate_relevance_score fuzz_ratio query title artist).
Proof.
  split; [exact clean_string_lower|].
  intros fuzz_ratio query title artist. unfold calculate_relevance_score.
  now rewrite !clean_string_lower.
Qed.

(* ================================================================== *)
(** ** Scores of exact matches and the confidence score *)

Lemma append_empty_r (s : string) : (s ++ "")%string = s.
Proof. induction s as [|c s IH]; simpl; congruence. Qed.

Lemma str_in_refl (s : string) : str_in s s = true.
Proof.
  rewrite str_in_unfold.
  replace (String.prefix s s) with true; [reflexivity|].
  symmetry. apply prefix_spec. exists "". now rewrite append_empty_r.
Qed.

(** With a title match and a title ratio of 100, every choice of the
    artist test and of the two other percentages scores at least 0.9. *)
Lemma exact_title_table :
  forallb (fun am =>
    forallb (fun r2 =>
      forallb (fun r3 => (0.9 <=? blend true am 100 r2 r3)%float)
        percentages)
      percentages)
    [true; false] = true.
Proof. vm_compute. reflexivity. Qed.

Lemma indel_ratio_same (a : string) : indel_ratio a a = 100%Z.
Proof. unfold indel_ratio. now rewrite String.eqb_refl. Qed.

(** A query that normalizes to the candidate's normalized title scores at
    least 0.9, whatever the artist, for a metric that rates equal strings
    100. *)
Theorem exact_title_scores_high
  (fuzz_ratio : string -> string -> Z) (query title artist : string) :
  (forall a b, (0 <= fuzz_ratio a b <= 100)%Z) ->
  (forall a, fuzz_ratio a a = 100%Z) ->
  clean_string query = clean_string title ->
  (0.9 <=? calculate_relevance_score fuzz_ratio query title artist)%float
  = true.
Proof.
  intros Hr Hs E. rewrite score_blend. cbv zeta. rewrite <- E, Hs.
  rewrite str_in_refl. cbn [orb].
  pose proof exact_title_table as T. rewrite forallb_forall in T.
  set (am := (str_in _ _ || str_in _ _)%bool).
  assert (In am [true; false]) as Iam by (destruct am; simpl; auto).
  specialize (T am Iam). rewrite forallb_forall in T.
  specialize (T _ (percentages_spec _ (Hr (clean_string query)
                                          (clean_string artist)))).
  rewrite forallb_forall in T.
  exact (T _ (percentages_spec _ (Hr _ _))).
Qed.

Lemma exact_title_witness :
  (0.9 <=? calculate_relevance_score indel_ratio "BOHEMIAN  rhapsody"
             "Bohemian Rhapsody (feat. Nobody)" "Queen")%float = true.
Proof.
  apply (exact_title_scores_high indel_ratio _ _ _ indel_ratio_range
           indel_ratio_same).
  reflexivity.
Defined.

Lemma platform_count_range (l : DSPLinks.t) : (0 <= platform_count l <= 6)%Z.
Proof.
  unfold platform_count. simpl filter.
  destruct (truthy (DSPLinks.apple_music l)),
    (truthy (DSPLinks.youtube_music l)), (truthy (DSPLinks.deezer l)),
    (truthy (DSPLinks.amazon_music l)), (truthy (DSPLinks.tidal l)),
    (truthy (DSPLinks.soundcloud l)); simpl; lia.
Qed.

(** The confidence score lies between 0.5 and 0.95 and does not decrease
    when more platforms are linked. *)
Theorem confidence_score_bounds_and_monotone (l l' : DSPLinks.t) :
  (0.5 <=? confidence_score l)%float = true /\
  (confidence_score l <=? 0.95)%float = true /\
  ((platform_count l <= platform_count l')%Z ->
   (confidence_score l <=? confidence_score l')%float = true).
Proof.
  unfold confidence_score.
  pose proof (platform_count_range l) as R.
  pose proof (platform_count_range l') as R'.
  set (n := platform_count l) in *. set (n' := platform_count l') in *.
  assert (n = 0 \/ n = 1 \/ n = 2 \/ n = 3 \/ n = 4 \/ n = 5 \/ n = 6)%Z
    as Hn by lia.
  assert (n' = 0 \/ n' = 1 \/ n' = 2 \/ n' = 3 \/ n' = 4 \/ n' = 5 \/ n' = 6)%Z
    as Hn' by lia.
  clearbody n n'. clear R R'.
  repeat split;
    repeat (destruct Hn as [->|Hn]); try subst n; try reflexivity;
    intros Hle;
    repeat (destruct Hn' as [->|Hn']); try subst n'; try reflexivity; lia.
Qed.

Lemma confidence_monotone_witness :
  (confidence_score (DSPLinks.mk (Some test_url) None None None None None None)
   <=? confidence_score empty_apple_link)%float = true.
Proof.
  apply (confidence_score_bounds_and_monotone
           (DSPLinks.mk (Some test_url) None None None None None None)
           empty_apple_link).
  vm_compute. discriminate.
Defined.

(* ================================================================== *)
(** ** More on [search_mixed] *)

Lemma for_each_ok_inv {A B} (body : A -> result B) (items : list A)
  (acc r : list B) :
  for_each body items acc = Ok r ->
  exists ys, r = acc ++ ys /\ Forall2 (fun x y => body x = Ok y) items ys.
Proof.
  revert acc. induction items as [|x rest IH]; intros acc; simpl.
  - intros [= <-]. exists []. split; [now rewrite app_nil_r|constructor].
  - destruct (body x) as [y|e] eqn:E; [|discriminate].
    intros H. apply IH in H as (ys & -> & F).
    exists (y :: ys). split; [now rewrite <- app_assoc|now constructor].
Qed.

Lemma In_firstn {A} (n : nat) (l : list A) (x : A) :
  In x (firstn n l) -> In x l.
Proof.
  revert l. induction n as [|n IH]; intros [|y l]; simpl; try tauto.
  intros [->|H]; auto.
Qed.

Lemma In_slice_to {A} (l : list A) (stop : Z) (x : A) :
  In x (slice_to l stop) -> In x l.
Proof. unfold slice_to. destruct (0 <=? stop)%Z; apply In_firstn. Qed.

Lemma slice_to_at_most {A} (l : list A) (stop : Z) :
  (0 <= stop)%Z -> (Z.of_nat (List.length (slice_to l stop)) <= stop)%Z.
Proof. intros H. destruct (slice_to_length l stop H) as [_ E]. lia. Qed.

Section FuserMore.

Variable fuzz_ratio : string -> string -> Z.

(** Whenever [search_mixed] returns, it returns a slice of the sorted
    scored candidates. *)
Lemma search_mixed_ok_inv (sp : Spotify) (q : string) (limit : Z)
  (log : list Request) (results : list Metadata) :
  snd (search_mixed fuzz_ratio sp q limit log) = Ok results ->
  exists mixed, results = map fst (slice_to (sort_desc mixed) limit).
Proof.
  unfold search_mixed, io_try_reraise, io_bind, search, io_lift.
  destruct (sp {| req_type := type_track |}) as [r1|e]; [|discriminate].
  destruct (sp {| req_type := type_album |}) as [r2|e]; [|discriminate].
  destruct (getitem (tracks_items r1)) as [ts|e]; simpl;
    [|discriminate].
  destruct (for_each _ ts []) as [m1|e]; simpl; [|discriminate].
  destruct (getitem (albums_items r2)) as [als|e]; simpl; [|discriminate].
  destruct (for_each _ als m1) as [m2|e]; simpl; [|discriminate].
  intros [= <-]. now exists m2.
Qed.

(** Whatever the catalog answers, a result of [search_mixed] for a
    non-negative limit has at most [limit] entries. *)
Theorem search_mixed_at_most_limit (sp : Spotify) (q : string) (limit : Z)
  (log : list Request) (results : list Metadata) :
  (0 <= limit)%Z ->
  snd (search_mixed fuzz_ratio sp q limit log) = Ok results ->
  (Z.of_nat (List.length results) <= limit)%Z.
Proof.
  intros Hl H. apply search_mixed_ok_inv in H as (mixed & ->).
  rewrite length_map. now apply slice_to_at_most.
Qed.

(** A failed catalog search fails the whole call with the same exception:
    the track search, or the album search after it. *)
Theorem search_mixed_propagates_failure (sp : Spotify) (q : string)
  (limit : Z) (log : list Request) (e : exn) :
  sp (track_request q limit) = Raise e \/
  (exists r, sp (track_request q limit) = Ok r /\
             sp (album_request q limit) = Raise e) ->
  snd (search_mixed fuzz_ratio sp q limit log) = Raise e.
Proof.
  unfold track_request, album_request.
  unfold search_mixed, io_try_reraise, io_bind, search, io_lift.
  intros [H|(r & H1 & H2)].
  - now rewrite H.
  - now rewrite H1, H2.
Qed.

(** A negative limit is not refused.  The two searches are issued with
    the limits 5 and 3, and the limit is taken as a slice bound counted
    from the end: the call returns the ranking without its last [-limit]
    candidates. *)
Theorem search_mixed_negative_limit
  (sp : Spotify) (q : string) (limit : Z) (log : list Request)
  (ts : list Track) (als : list Album) :
  (limit < 0)%Z ->
  catalog_returns sp q limit ts als ->
  Forall (fun t => track_artists t <> []) ts ->
  Forall (fun a => album_artists a <> []) als ->
  exists (st sa : list (Metadata * float)) (results : list Metadata),
    Forall2 (fun t p => process_track fuzz_ratio q t = Ok p) ts st /\
    Forall2 (fun a p => process_album fuzz_ratio q a = Ok p) als sa /\
    search_mixed fuzz_ratio sp q limit log
    = (log ++ [{| req_q := q; req_type := type_track; req_limit := 5 |};
               {| req_q := q; req_type := type_album; req_limit := 3 |}],
       Ok results) /\
    results
    = map fst (firstn (List.length ts + List.length als - Z.to_nat (- limit))
                 (sort_desc (st ++ sa))) /\
    Z.of_nat (List.length results)
    = Z.max 0 (Z.of_nat (List.length ts + List.length als) + limit).
Proof.
  intros Hl Hc Ht Ha.
  destruct (for_each_all_ok _ ts [] (tracks_all_ok fuzz_ratio q ts Ht))
    as (st & Fst & Et).
  destruct (for_each_all_ok _ als ([] ++ st) (albums_all_ok fuzz_ratio q als Ha))
    as (sa & Fsa & Ea).
  simpl in Et, Ea.
  assert (List.length (sort_desc (st ++ sa))
          = List.length ts + List.length als) as L.
  { rewrite sort_desc_length, length_app.
    now rewrite <- (Forall2_length Fst), <- (Forall2_length Fsa). }
  exists st, sa,
    (map fst (firstn (List.length ts + List.length als - Z.to_nat (- limit))
                (sort_desc (st ++ sa)))).
  repeat split; try assumption.
  - rewrite (search_mixed_run fuzz_ratio sp q limit log ts als Hc). simpl.
    rewrite Et. simpl. rewrite Ea. simpl. unfold slice_to.
    destruct (0 <=? limit)%Z eqn:E; [lia|]. rewrite L.
    unfold track_request, album_request.
    assert (limit / 2 < 0)%Z by (apply Z.div_lt_upper_bound; lia).
    assert (limit / 3 < 0)%Z by (apply Z.div_lt_upper_bound; lia).
    now rewrite !Z.max_l by lia.
  - rewrite length_map, length_firstn, L. lia.
Qed.

(** Every entry [search_mixed] returns is the metadata of a track or an
    album the catalog found, the same metadata [get_track_metadata] and
    [get_album_metadata] build for that item. *)
Theorem search_results_are_found_items
  (sp : Spotify) (q : string) (limit : Z) (log : list Request)
  (ts : list Track) (als : list Album) (results : list Metadata)
  (m : Metadata) :
  catalog_returns sp q limit ts als ->
  snd (search_mixed fuzz_ratio sp q limit log) = Ok results ->
  In m results ->
  (exists t tm, In t ts /\
     get_track_metadata (fun _ => Ok t) (track_id t) = Ok tm /\
     m = OfTrack tm) \/
  (exists a am, In a als /\
     get_album_metadata (fun _ => Ok a) (album_id a) = Ok am /\
     m = OfAlbum am).
Proof.
  intros Hc H Hm.
  rewrite (search_mixed_run fuzz_ratio sp q limit log ts als Hc) in H.
  simpl in H.
  destruct (for_each _ ts []) as [m1|e] eqn:E1; simpl in H; [|discriminate].
  destruct (for_each _ als m1) as [m2|e] eqn:E2; simpl in H; [|discriminate].
  injection H as <-.
  apply for_each_ok_inv in E1 as (st & -> & Fst).
  apply for_each_ok_inv in E2 as (sa & -> & Fsa). simpl in Hm.
  apply in_map_iff in Hm as (p & <- & Hp).
  apply In_slice_to in Hp.
  apply (Permutation_in _ (Permutation_sym (sort_desc_perm _))) in Hp.
  apply in_app_or in Hp as [Hp|Hp].
  - left. destruct (Forall2_In_right _ _ _ p Fst Hp) as (t & Ht & E).
    unfold process_track in E.
    destruct (first (track_artists t)); [|discriminate].
    simpl in E. injection E as <-. eexists t, _.
    split; [exact Ht|]. split; reflexivity.
  - right. destruct (Forall2_In_right _ _ _ p Fsa Hp) as (a & Ha & E).
    unfold process_album in E.
    destruct (first (album_artists a)); [|discriminate].
    simpl in E. injection E as <-. eexists a, _.
    split; [exact Ha|]. split; reflexivity.
Qed.

End FuserMore.

Lemma test_catalog_returns (limit : Z) :
  catalog_returns test_catalog "test" limit [test_track] [test_album].
Proof. split; eexists; split; reflexivity. Qed.

Lemma search_mixed_at_most_limit_witness :
  (Z.of_nat
     (List.length
        [OfTrack
           (TrackMetadata.mk "Test Song" "Test Artist, Guest" "Test Album"
              None 215000 (Some "USRC17607839") "t1"
              "https://open.spotify.com/track/t1" None "track")])
   <= 1)%Z.
Proof.
  apply (search_mixed_at_most_limit indel_ratio test_catalog "test" 1 []).
  - lia.
  - vm_compute. reflexivity.
Defined.

Lemma search_mixed_propagates_failure_witness :
  snd (search_mixed indel_ratio albums_down "test" 10 [])
  = Raise SpotifyException.
Proof.
  apply search_mixed_propagates_failure. right.
  eexists. split; reflexivity.
Defined.

Lemma search_mixed_negative_limit_witness :
  exists results,
    search_mixed indel_ratio test_catalog "test" (-1) []
    = ([{| req_q := "test"; req_type := type_track; req_limit := 5 |};
        {| req_q := "test"; req_type := type_album; req_limit := 3 |}],
       Ok results) /\
    Z.of_nat (List.length results) = 1%Z.
Proof.
  destruct (search_mixed_negative_limit indel_ratio test_catalog "test" (-1)
              [] [test_track] [test_album])
    as (st & sa & results & _ & _ & E & _ & L).
  - lia.
  - apply test_catalog_returns.
  - repeat constructor; discriminate.
  - repeat constructor; discriminate.
  - exists results. split; [exact E|exact L].
Defined.

Lemma search_results_are_found_items_witness :
  (exists t tm, In t [test_track] /\
     get_track_metadata (fun _ => Ok t) (track_id t) = Ok tm /\
     OfTrack
       (TrackMetadata.mk "Test Song" "Test Artist, Guest" "Test Album"
          None 215000 (Some "USRC17607839") "t1"
          "https://open.spotify.com/track/t1" None "track") = OfTrack tm) \/
  (exists a am, In a [test_album] /\
     get_album_metadata (fun _ => Ok a) (album_id a) = Ok am /\
     OfTrack
       (TrackMetadata.mk "Test Song" "Test Artist, Guest" "Test Album"
          None 215000 (Some "USRC17607839") "t1"
          "https://open.spotify.com/track/t1" None "track") = OfAlbum am).
Proof.
  eapply (search_results_are_found_items indel_ratio test_catalog "test" 1 []).
  - apply test_catalog_returns.
  - vm_compute. reflexivity.
  - now left.
Defined.

(* ================================================================== *)
(** ** [get_track_metadata] and [get_album_metadata] *)

(** A metadata lookup fails exactly when the catalog lookup fails, and
    with its exception: no item makes the projection fail. *)
Theorem metadata_lookup_fails_only_with_catalog
  (track_api : TrackLookup) (album_api : AlbumLookup) (spotify_id : string)
  (e : exn) :
  (get_track_metadata track_api spotify_id = Raise e
   <-> track_api spotify_id = Raise e) /\
  (get_album_metadata album_api spotify_id = Raise e
   <-> album_api spotify_id = Raise e).
Proof.
  unfold get_track_metadata, get_album_metadata. split.
  - destruct (track_api spotify_id); simpl; split; congruence.
  - destruct (album_api spotify_id); simpl; split; congruence.
Qed.

(** A track that lists no artist is returned by the lookup, with the empty
    string as its artist, while the same track fails a search. *)
Theorem lookup_tolerates_what_search_rejects
  (fuzz_ratio : string -> string -> Z) (track_api : TrackLookup)
  (spotify_id q : string) (t : Track) :
  track_api spotify_id = Ok t ->
  track_artists t = [] ->
  (exists m,
     get_track_metadata track_api spotify_id = Ok m /\
     TrackMetadata.artist m = "" /\
     TrackMetadata.title m = track_name t) /\
  process_track fuzz_ratio q t = Raise IndexError.
Proof.
  intros H E. unfold get_track_metadata, process_track, display_artist.
  rewrite H. simpl. rewrite E. simpl. split; [|reflexivity].
  eexists. split; [reflexivity|]. split; reflexivity.
Qed.

Lemma lookup_tolerates_witness :
  (exists m,
     get_track_metadata anonymous_track_api "t2" = Ok m /\
     TrackMetadata.artist m = "" /\
     TrackMetadata.title m = "Untitled") /\
  process_track indel_ratio "untitled" anonymous_track = Raise IndexError.
Proof.
  apply (lookup_tolerates_what_search_rejects indel_ratio anonymous_track_api
           "t2" "untitled" anonymous_track); reflexivity.
Defined.

(* ================================================================== *)
(** ** More on [SongLinkService] *)

(** Case analysis along a body of binds and conditionals, innermost
    call first. *)
Ltac run_cases :=
  repeat (simpl;
          match goal with
          | |- context [match ?x with Ok _ => _ | Raise _ => _ end] =>
              lazymatch x with
              | context [match _ with Ok _ => _ | Raise _ => _ end] => fail
              | context [if _ then _ else _] => fail
              | _ => destruct x
              end
          | |- context [if ?b then _ else _] =>
              lazymatch b with
              | context [match _ with Ok _ => _ | Raise _ => _ end] => fail
              | _ => destruct b
              end
          end).

(** [get_detailed_platform_data] returns for every behaviour of the
    provider; its result always has an entry for Spotify and never one
    for YouTube, SoundCloud or Pandora. *)
Theorem get_detailed_platform_data_never_raises
  (http : SongLink) (spotify_url : string) :
  exists l,
    get_detailed_platform_data http spotify_url = Ok l /\
    DetailedPlatformLinks.spotify l <> None /\
    DetailedPlatformLinks.youtube l = None /\
    DetailedPlatformLinks.soundcloud l = None /\
    DetailedPlatformLinks.pandora l = None.
Proof.
  unfold get_detailed_platform_data, try_except, bind.
  run_cases; eexists; (split; [reflexivity|]); simpl;
    repeat split; try reflexivity; discriminate.
Qed.

(** [get_songlink_page_url] returns for every behaviour of the provider.
    When the provider answers 200 with a JSON object that has a
    ['pageUrl'], the value of that key is returned, whatever it is; in
    every other case (transport failure, another status, a body that is
    not JSON or not an object, an object without the key) the result is
    the song.link address built from the source URL. *)
Theorem get_songlink_page_url_never_raises
  (http : SongLink) (spotify_url : string) :
  (exists v, get_songlink_page_url http spotify_url = Ok v) /\
  (forall d v,
     http (api_url_of spotify_url)
     = Ok {| status_code := 200; body := Some (JObj d) |} ->
     lookup "pageUrl" d = Some v ->
     get_songlink_page_url http spotify_url = Ok v) /\
  (~ (exists d v,
        http (api_url_of spotify_url)
        = Ok {| status_code := 200; body := Some (JObj d) |} /\
        lookup "pageUrl" d = Some v) ->
   get_songlink_page_url http spotify_url
   = Ok (JStr ("https://song.link/" ++ spotify_url)%string)).
Proof.
  unfold get_songlink_page_url, try_except, bind.
  destruct (http (api_url_of spotify_url)) as [[st b]|e] eqn:H; simpl.
  - destruct (st =? 200)%Z eqn:Est.
    + apply Z.eqb_eq in Est. subst st. unfold response_json. simpl.
      destruct b as [[| | | | |d]|]; simpl;
        try (split; [eauto|split; [intros d' v [=]|reflexivity]]).
      destruct (lookup "pageUrl" d) as [w|] eqn:L.
      * split; [eauto|]. split.
        -- intros d' v [= <-]. rewrite L. now intros [= <-].
        -- intros N. elim N. now exists d, w.
      * split; [eauto|]. split; [|reflexivity].
        intros d' v [= <-]. now rewrite L.
    + apply Z.eqb_neq in Est.
      split; [eauto|]. split; [|reflexivity].
      intros d v [= E _]. now elim Est.
  - split; [eauto|]. split; [|reflexivity]. intros d v [=].
Qed.

Lemma get_songlink_page_url_witness :
  get_songlink_page_url two_platforms test_url
  = Ok (JStr "https://song.link/s/t1") /\
  get_songlink_page_url empty_mapping test_url
  = Ok (JStr ("https://song.link/" ++ test_url)%string).
Proof.
  split.
  - eapply (proj1 (proj2 (get_songlink_page_url_never_raises two_platforms
                            test_url))); reflexivity.
  - apply (proj2 (proj2 (get_songlink_page_url_never_raises empty_mapping
                           test_url))).
    intros (d & v & H & L). injection H as <-. discriminate L.
Defined.

(** While the provider does not answer 200, the detailed links are the
    source URL under Spotify and nothing else, and the page URL is the
    song.link address built from the source URL. *)
Theorem link_resolution_degrades_on_failure (http : SongLink)
  (spotify_url : string) :
  provider_failed http spotify_url ->
  get_detailed_platform_data http spotify_url
  = Ok (DetailedPlatformLinks.mk
          (Some (PlatformInfo.mk (Some spotify_url) None (Some "US")))
          None None None None None None None None) /\
  get_songlink_page_url http spotify_url
  = Ok (JStr ("https://song.link/" ++ spotify_url)%string).
Proof.
  intros H. split.
  - now apply get_detailed_platform_data_on_failure.
  - now apply get_songlink_page_url_on_failure.
Qed.

Lemma link_resolution_degrades_witness :
  get_detailed_platform_data not_found test_url
  = Ok (DetailedPlatformLinks.mk
          (Some (PlatformInfo.mk (Some test_url) None (Some "US")))
          None None None None None None None None) /\
  get_songlink_page_url not_found test_url
  = Ok (JStr ("https://song.link/" ++ test_url)%string).
Proof.
  apply link_resolution_degrades_on_failure.
  unfold provider_failed. simpl. lia.
Defined.

(** While the provider does not answer 200, [get_platform_links] returns
    no links at all: building the fallback object raises. *)
Theorem basic_links_unavailable_on_failure (http : SongLink)
  (spotify_url : string) :
  provider_failed http spotify_url ->
  get_platform_links http spotify_url = Raise ValidationError /\
  forall l, get_platform_links http spotify_url <> Ok l.
Proof.
  intros H. rewrite (get_platform_links_on_failure http spotify_url H).
  split; [reflexivity|discriminate].
Qed.

Lemma basic_links_unavailable_witness :
  get_platform_links unreachable test_url = Raise ValidationError.
Proof.
  apply (basic_links_unavailable_on_failure unreachable test_url). exact I.
Defined.

Lemma lookup_entry_ok (items : list (string * json)) (key : string) (v : json) :
  mapping_ok items = true -> lookup key items = Some v -> entry_ok v = true.
Proof.
  unfold mapping_ok. induction items as [|[k w] rest IH]; simpl; [discriminate|].
  intros H. apply andb_prop in H as [Hw Hr].
  destruct (String.eqb k key); [now intros [= <-]|now apply IH].
Qed.

(** On a well-formed mapping a field read with the default [None]
    validates to the string the mapping lists. *)
Lemma platform_field_listed (items : list (string * json))
  (platform field : string) :
  mapping_ok items = true ->
  field = "url" \/ field = "nativeAppUriMobile" ->
  exists v,
    platform_field (JObj items) platform field JNull = Ok v /\
    Pydantic.optional_str v = Ok (listed items platform field).
Proof.
  intros Hok Hf. unfold platform_field, listed. simpl.
  destruct (lookup platform items) as [w|] eqn:L; simpl.
  - pose proof (lookup_entry_ok items platform w Hok L) as Hw.
    destruct w as [| | | | |e]; try discriminate Hw. simpl in *.
    apply andb_prop in Hw as [Hu Hn].
    assert (field_ok (lookup field e) = true) as Hfe
        by (destruct Hf as [->| ->]; assumption).
    destruct (lookup field e) as [[| | |u| |]|]; try discriminate Hfe;
      eexists; split; reflexivity.
  - eexists. split; reflexivity.
Qed.

Lemma platform_info_listed (items : list (string * json)) (platform : string) :
  mapping_ok items = true ->
  platform_info (JObj items) platform = Ok (listed_info items platform).
Proof.
  intros Hok. unfold platform_info, listed_info.
  destruct (platform_field_listed items platform "url" Hok) as (u & -> & Hu);
    [now left|].
  destruct (platform_field_listed items platform "nativeAppUriMobile" Hok)
    as (n & -> & Hn); [now right|].
  simpl. unfold PlatformInfo.init. simpl. now rewrite Hu, Hn.
Qed.

Lemma forallb_false_exists {A} (f : A -> bool) (l : list A) :
  forallb f l = false -> exists x, In x l /\ f x = false.
Proof.
  induction l as [|a l IH]; simpl; [discriminate|].
  destruct (f a) eqn:E; simpl.
  - intros H. destruct (IH H) as (x & Hx & Hf). eauto.
  - intros _. eauto.
Qed.

(** A URL read with the default [None] validates to the string the
    mapping lists, as soon as the platform's entry allows it. *)
Lemma platform_url_listed (items : list (string * json)) (platform : string) :
  url_ok items platform = true ->
  exists v,
    platform_field (JObj items) platform "url" JNull = Ok v /\
    Pydantic.optional_str v = Ok (listed items platform "url").
Proof.
  unfold url_ok, platform_field, listed. simpl.
  destruct (lookup platform items) as [[| | | | |e]|]; simpl;
    try discriminate.
  - destruct (lookup "url" e) as [[| | |u| |]|]; simpl; try discriminate;
      intros _; eexists; split; reflexivity.
  - intros _. eexists. split; reflexivity.
Qed.

(** The same for the Spotify URL of the basic links, read with the source
    URL as its default: the default is used when the key is missing, not
    when its value is [null]. *)
Lemma platform_url_spotify (items : list (string * json))
  (spotify_url : string) :
  url_ok items "spotify" = true ->
  exists v,
    platform_field (JObj items) "spotify" "url" (JStr spotify_url) = Ok v /\
    Pydantic.optional_str v
    = Ok (if has_field items "spotify" "url"
          then listed items "spotify" "url" else Some spotify_url).
Proof.
  unfold url_ok, platform_field, listed, has_field. simpl.
  destruct (lookup "spotify" items) as [[| | | | |e]|]; simpl;
    try discriminate.
  - destruct (lookup "url" e) as [[| | |u| |]|]; simpl; try discriminate;
      intros _; eexists; split; reflexivity.
  - intros _. eexists. split; reflexivity.
Qed.

(** An entry that does not allow it makes the read raise, or hands over a
    value the model refuses. *)
Lemma platform_url_bad (items : list (string * json)) (platform : string)
  (default : json) :
  url_ok items platform = false ->
  (exists e, platform_field (JObj items) platform "url" default = Raise e) \/
  (exists v,
     platform_field (JObj items) platform "url" default = Ok v /\
     Pydantic.optional_str v = Raise ValidationError).
Proof.
  unfold url_ok, platform_field. simpl.
  destruct (lookup platform items) as [[| | | | |e]|]; simpl;
    try discriminate; try (intros _; left; eexists; reflexivity).
  destruct (lookup "url" e) as [[| | |u| |]|]; simpl; try discriminate;
    intros _; right; eexists; split; reflexivity.
Qed.

Lemma platform_info_ok (items : list (string * json)) (platform : string) :
  info_ok items platform = true ->
  platform_info (JObj items) platform = Ok (listed_info items platform).
Proof.
  unfold info_ok, platform_info, platform_field, listed_info, listed. simpl.
  destruct (lookup platform items) as [[| | | | |e]|]; simpl;
    try discriminate; [|reflexivity].
  destruct (lookup "url" e) as [[| | |u| |]|]; simpl; try discriminate;
    destruct (lookup "nativeAppUriMobile" e) as [[| | |?| |]|]; simpl;
    try discriminate; reflexivity.
Qed.

Lemma platform_info_bad (items : list (string * json)) (platform : string) :
  info_ok items platform = false ->
  exists e, platform_info (JObj items) platform = Raise e.
Proof.
  unfold info_ok, platform_info, platform_field. simpl.
  destruct (lookup platform items) as [[| | | | |e]|]; simpl;
    try discriminate; try (intros _; eexists; reflexivity).
  destruct (lookup "url" e) as [[| | |u| |]|]; simpl;
    destruct (lookup "nativeAppUriMobile" e) as [[| | |?| |]|]; simpl;
    try discriminate; intros _; eexists; reflexivity.
Qed.

(** On a 200 answer whose ['linksByPlatform'] is an object, the basic
    links are decided by the ['url'] fields of the seven platforms read.
    When every one of them is a string, [null] or missing (entries being
    objects), the links are the URLs the mapping lists, platform by
    platform: a platform without a string URL is absent, and Spotify gets
    the source URL when the mapping has no ['url'] key for it, but is
    absent when that key holds [null].  When one of them is anything else
    no links are returned: the call raises. *)
Theorem basic_links_on_success (http : SongLink) (spotify_url : string)
  (items : list (string * json)) :
  answers_with http spotify_url items ->
  get_platform_links http spotify_url
  = if forallb (url_ok items) basic_platforms
    then Ok (DSPLinks.mk
               (if has_field items "spotify" "url"
                then listed items "spotify" "url" else Some spotify_url)
               (listed items "appleMusic" "url")
               (listed items "youtubeMusic" "url")
               (listed items "deezer" "url")
               (listed items "soundcloud" "url")
               (listed items "amazonMusic" "url")
               (listed items "tidal" "url"))
    else Raise ValidationError.
Proof.
  intros (d & H & L).
  destruct (forallb (url_ok items) basic_platforms) eqn:F;
    unfold get_platform_links; rewrite H; simpl; unfold response_json, get;
    simpl; rewrite L; simpl.
  - pose proof (proj1 (forallb_forall _ _) F) as Hok.
    destruct (platform_url_spotify items spotify_url) as (v0 & -> & E0);
      [apply Hok; simpl; tauto|].
    destruct (platform_url_listed items "appleMusic") as (v1 & -> & E1);
      [apply Hok; simpl; tauto|].
    destruct (platform_url_listed items "youtubeMusic") as (v2 & -> & E2);
      [apply Hok; simpl; tauto|].
    destruct (platform_url_listed items "deezer") as (v3 & -> & E3);
      [apply Hok; simpl; tauto|].
    destruct (platform_url_listed items "soundcloud") as (v4 & -> & E4);
      [apply Hok; simpl; tauto|].
    destruct (platform_url_listed items "amazonMusic") as (v5 & -> & E5);
      [apply Hok; simpl; tauto|].
    destruct (platform_url_listed items "tidal") as (v6 & -> & E6);
      [apply Hok; simpl; tauto|].
    simpl. unfold DSPLinks.init, Pydantic.required.
    rewrite E0, E1, E2, E3, E4, E5, E6. reflexivity.
  - apply forallb_false_exists in F as (p & Hin & Hp).
    simpl in Hin.
    destruct Hin as [<-|[<-|[<-|[<-|[<-|[<-|[<-|[]]]]]]]].
    all: match type of Hp with
         | url_ok _ ?q = false =>
             match goal with
             | |- context [platform_field _ q "url" ?default] =>
                 destruct (platform_url_bad items q default Hp)
                   as [(e & B)|(v & B & Bo)]
             end
         end; rewrite B.
    all: repeat (simpl;
                 match goal with
                 | |- context [platform_field ?l ?q ?f ?default] =>
                     destruct (platform_field l q f default)
                 end).
    all: try reflexivity.
    all: unfold DSPLinks.init, Pydantic.required, bind, try_except.
    all: rewrite Bo.
    all: repeat match goal with
                | |- context [Pydantic.optional_str ?x] =>
                    is_var x; destruct (Pydantic.optional_str x)
                end; reflexivity.
Qed.

Lemma detailed_links_listed (http : SongLink) (spotify_url : string)
  (items : list (string * json)) :
  answers_with http spotify_url items ->
  mapping_ok items = true ->
  get_detailed_platform_data http spotify_url
  = Ok (DetailedPlatformLinks.mk
          (Some (listed_info items "spotify"))
          (Some (listed_info items "appleMusic"))
          (Some (listed_info items "youtubeMusic"))
          None
          (Some (listed_info items "deezer"))
          None
          (Some (listed_info items "amazonMusic"))
          (Some (listed_info items "tidal"))
          None).
Proof.
  intros (d & H & L) Hok. unfold get_detailed_platform_data.
  rewrite H. simpl. unfold response_json, get. simpl. rewrite L. simpl.
  rewrite !platform_info_listed by assumption. reflexivity.
Qed.

(** On a 200 answer whose ['linksByPlatform'] is an object, the detailed
    links are decided by the ['url'] and ['nativeAppUriMobile'] fields of
    the six platforms read.  When every one of them is a string, [null] or
    missing (entries being objects), each platform holds the URL and the
    mobile URI the mapping lists, absent when it lists none: Spotify has
    no fallback to the source URL here, and a SoundCloud entry of the
    mapping is dropped.  When one of them is anything else, nothing of the
    mapping is kept: the result is the source URL under Spotify alone. *)
Theorem detailed_links_on_success (http : SongLink) (spotify_url : string)
  (items : list (string * json)) :
  answers_with http spotify_url items ->
  get_detailed_platform_data http spotify_url
  = Ok (if forallb (info_ok items) detailed_platforms
        then DetailedPlatformLinks.mk
               (Some (listed_info items "spotify"))
               (Some (listed_info items "appleMusic"))
               (Some (listed_info items "youtubeMusic"))
               None
               (Some (listed_info items "deezer"))
               None
               (Some (listed_info items "amazonMusic"))
               (Some (listed_info items "tidal"))
               None
        else DetailedPlatformLinks.mk
               (Some (PlatformInfo.mk (Some spotify_url) None (Some "US")))
               None None None None None None None None).
Proof.
  intros (d & H & L).
  destruct (forallb (info_ok items) detailed_platforms) eqn:F;
    unfold get_detailed_platform_data; rewrite H; simpl;
    unfold response_json, get; simpl; rewrite L; simpl.
  - pose proof (proj1 (forallb_forall _ _) F) as Hok.
    rewrite !platform_info_ok by (apply Hok; simpl; tauto). reflexivity.
  - apply forallb_false_exists in F as (p & Hin & Hp).
    destruct (platform_info_bad items p Hp) as (e & B).
    simpl in Hin.
    destruct Hin as [<-|[<-|[<-|[<-|[<-|[<-|[]]]]]]]; rewrite B;
      repeat (simpl;
              match goal with
              | |- context [platform_info ?l ?q] =>
                  destruct (platform_info l q)
              end);
      reflexivity.
Qed.

Lemma two_platforms_answers :
  answers_with two_platforms test_url
    [("spotify",
      JObj [("url", JStr "https://open.spotify.com/track/t1");
            ("nativeAppUriMobile", JStr "spotify:track:t1")]);
     ("appleMusic", JObj [("url", JStr "https://music.apple.com/t1")])].
Proof. eexists. split; reflexivity. Qed.

Lemma numeric_uri_answers :
  answers_with numeric_uri test_url
    [("spotify",
      JObj [("url", JStr "https://open.spotify.com/track/t1?si=1");
            ("nativeAppUriMobile", JNum 5)])].
Proof. eexists. split; reflexivity. Qed.

(** The basic links of a mapping with two platforms, and of one whose
    Spotify entry has a number as its mobile URI, which the basic links do
    not read. *)
Lemma basic_links_on_success_witness :
  get_platform_links two_platforms test_url
  = Ok (DSPLinks.mk (Some "https://open.spotify.com/track/t1")
          (Some "https://music.apple.com/t1") None None None None None) /\
  get_platform_links numeric_uri test_url
  = Ok (DSPLinks.mk (Some "https://open.spotify.com/track/t1?si=1")
          None None None None None None).
Proof.
  rewrite (basic_links_on_success two_platforms test_url _
             two_platforms_answers).
  rewrite (basic_links_on_success numeric_uri test_url _
             numeric_uri_answers).
  split; reflexivity.
Defined.

(** The detailed links of the same two mappings: the second one makes
    them fall back to the source URL. *)
Lemma detailed_links_on_success_witness :
  get_detailed_platform_data two_platforms test_url
  = Ok (DetailedPlatformLinks.mk
          (Some (PlatformInfo.mk (Some "https://open.spotify.com/track/t1")
                   (Some "spotify:track:t1") (Some "US")))
          (Some (PlatformInfo.mk (Some "https://music.apple.com/t1") None
                   (Some "US")))
          (Some (PlatformInfo.mk None None (Some "US")))
          None
          (Some (PlatformInfo.mk None None (Some "US")))
          None
          (Some (PlatformInfo.mk None None (Some "US")))
          (Some (PlatformInfo.mk None None (Some "US")))
          None) /\
  get_detailed_platform_data numeric_uri test_url
  = Ok (DetailedPlatformLinks.mk
          (Some (PlatformInfo.mk (Some test_url) None (Some "US")))
          None None None None None None None None).
Proof.
  rewrite (detailed_links_on_success two_platforms test_url _
             two_platforms_answers).
  rewrite (detailed_links_on_success numeric_uri test_url _
             numeric_uri_answers).
  split; reflexivity.
Defined.

(* ================================================================== *)
(** ** The endpoints *)

(** [health_check] never answers 503: [test_connection] absorbs the
    failure of the catalog, which is reported as "down" in a reply whose
    status is still "healthy".  One search for "test" with limit 1 is
    issued. *)
Theorem health_check_never_fails (sp : Spotify) (now : float)
  (log : list Request) :
  exists h,
    health_check sp now log
    = (log ++ [{| req_q := "test"; req_type := type_track; req_limit := 1 |}],
       Reply h) /\
    health_status h = "healthy" /\
    health_songlink h = "up" /\
    health_timestamp h = now /\
    health_spotify h
    = match sp {| req_q := "test"; req_type := type_track; req_limit := 1 |}
      with
      | Ok _ => "up"
      | Raise _ => "down"
      end.
Proof.
  unfold health_check, test_connection, io_try_except, io_bind, search, io_lift.
  destruct (sp _); eexists; (split; [reflexivity|]); repeat split.
Qed.

(** [search_music] replies with the results of [search_mixed], their
    number as [total_results] (at most a non-negative limit) and the query
    as sent; it fails with status 500 exactly when [search_mixed] raises,
    and issues the requests of [search_mixed] and no other. *)
Theorem search_music_reply (str_exn : exn -> string)
  (fuzz_ratio : string -> string -> Z) (sp : Spotify)
  (request : SearchRequest.t) (log : list Request) :
  let q := SearchRequest.query request in
  let limit := SearchRequest.limit request in
  fst (search_music str_exn fuzz_ratio sp request log)
  = fst (search_mixed fuzz_ratio sp q limit log) /\
  match snd (search_music str_exn fuzz_ratio sp request log) with
  | Reply r =>
      snd (search_mixed fuzz_ratio sp q limit log)
      = Ok (SearchResponse.results r) /\
      SearchResponse.query r = q /\
      SearchResponse.total_results r
      = Z.of_nat (List.length (SearchResponse.results r)) /\
      ((0 <= limit)%Z -> (SearchResponse.total_results r <= limit)%Z)
  | Failed h =>
      http_status h = 500%Z /\
      exists e,
        snd (search_mixed fuzz_ratio sp q limit log) = Raise e /\
        detail h = ("Search failed: " ++ str_exn e)%string
  end.
Proof.
  intros q limit. unfold search_music. fold q limit.
  destruct (search_mixed fuzz_ratio sp q limit log) as [log' [results|e]] eqn:E;
    simpl.
  - repeat split. intros Hl.
    destruct (search_mixed_ok_inv fuzz_ratio sp q limit log results)
      as (mixed & ->); [now rewrite E|].
    rewrite length_map. now apply slice_to_at_most.
  - repeat split. now exists e.
Qed.

(** While the link provider fails, [match_across_platforms] cannot reply:
    whatever the catalog returns, the request ends with status 500. *)
Theorem match_fails_when_provider_fails (str_exn : exn -> string)
  (track_api : TrackLookup) (album_api : AlbumLookup) (http : SongLink)
  (spotify_id content_type : string) :
  (forall u, provider_failed http u) ->
  exists h,
    match_across_platforms str_exn track_api album_api http spotify_id
      content_type = Failed h /\
    http_status h = 500%Z.
Proof.
  intros Hf. unfold match_across_platforms.
  destruct (String.eqb content_type "track").
  - destruct (get_track_metadata track_api spotify_id) as [m|e]; simpl.
    + rewrite (get_platform_links_on_failure http _ (Hf _)). simpl. eauto.
    + eauto.
  - destruct (get_album_metadata album_api spotify_id) as [m|e]; simpl.
    + rewrite (get_platform_links_on_failure http _ (Hf _)). simpl. eauto.
    + eauto.
Qed.

Lemma match_fails_witness :
  exists h,
    match_across_platforms (fun _ => "") test_track_api test_album_api
      unreachable "t1" "track" = Failed h /\
    http_status h = 500%Z.
Proof.
  apply match_fails_when_provider_fails. intros u. exact I.
Defined.

(** A reply of [match_across_platforms] echoes the content type it was
    given, holds the track metadata when that type is "track" and the
    album metadata for every other string, the basic links of the
    metadata's Spotify URL, and the confidence score of those links. *)
Theorem match_reply_shape (str_exn : exn -> string)
  (track_api : TrackLookup) (album_api : AlbumLookup) (http : SongLink)
  (spotify_id content_type : string) (r : MatchResult.t) :
  match_across_platforms str_exn track_api album_api http spotify_id
    content_type = Reply r ->
  MatchResult.content_type r = content_type /\
  (if String.eqb content_type "track"
   then exists tm, get_track_metadata track_api spotify_id = Ok tm /\
                   MatchResult.metadata r = OfTrack tm
   else exists am, get_album_metadata album_api spotify_id = Ok am /\
                   MatchResult.metadata r = OfAlbum am) /\
  get_platform_links http (metadata_spotify_url (MatchResult.metadata r))
  = Ok (MatchResult.dsp_links r) /\
  MatchResult.confidence_score r = confidence_score (MatchResult.dsp_links r).
Proof.
  unfold match_across_platforms.
  destruct (String.eqb content_type "track").
  - destruct (get_track_metadata track_api spotify_id) as [m|e]; simpl;
      [|discriminate].
    destruct (get_platform_links http _) as [l|e] eqn:L; simpl;
      [|discriminate].
    intros [= <-]. simpl. repeat split; eauto.
  - destruct (get_album_metadata album_api spotify_id) as [m|e]; simpl;
      [|discriminate].
    destruct (get_platform_links http _) as [l|e] eqn:L; simpl;
      [|discriminate].
    intros [= <-]. simpl. repeat split; eauto.
Qed.

Lemma match_reply_witness :
  exists r,
    match_across_platforms (fun _ => "") test_track_api test_album_api
      two_platforms "a1" "podcast" = Reply r /\
    MatchResult.content_type r = "podcast" /\
    (exists am, MatchResult.metadata r = OfAlbum am) /\
    MatchResult.confidence_score r = 0.58%float.
Proof.
  eexists. split; [reflexivity|].
  destruct (match_reply_shape (fun _ => "") test_track_api test_album_api
              two_platforms "a1" "podcast" _ eq_refl) as (C & (am & _ & M) & _ & S).
  split; [exact C|]. split; [now exists am|]. rewrite S. reflexivity.
Defined.

(** A failing link provider does not fail the landing page: with the
    track found, the reply carries the fallback links (the source URL
    under Spotify, nothing else), the song.link address built from the
    source URL, and no release date or popularity. *)
Theorem landing_survives_provider_failure (str_exn : exn -> string)
  (track_api : TrackLookup) (http_links http_page : SongLink)
  (spotify_id : string) (t : Track) :
  track_api spotify_id = Ok t ->
  provider_failed http_links (track_spotify t) ->
  provider_failed http_page (track_spotify t) ->
  exists r,
    get_landing_page_data str_exn track_api http_links http_page spotify_id
    = Reply r /\
    LandingPageData.platforms r
    = DetailedPlatformLinks.mk
        (Some (PlatformInfo.mk (Some (track_spotify t)) None (Some "US")))
        None None None None None None None None /\
    LandingPageData.songlink_page_url r
    = ("https://song.link/" ++ track_spotify t)%string /\
    LandingPageData.title r = track_name t /\
    LandingPageData.artist r = display_artist (track_artists t).
Proof.
  intros H Hl Hp. unfold get_landing_page_data, get_track_metadata.
  rewrite H. simpl.
  rewrite (get_detailed_platform_data_on_failure _ _ Hl). simpl.
  rewrite (get_songlink_page_url_on_failure _ _ Hp). simpl.
  eexists. split; [reflexivity|]. repeat split.
Qed.

Lemma landing_survives_witness :
  exists r,
    get_landing_page_data (fun _ => "") test_track_api not_found unreachable
      "t1" = Reply r /\
    LandingPageData.songlink_page_url r
    = "https://song.link/https://open.spotify.com/track/t1".
Proof.
  destruct (landing_survives_provider_failure (fun _ => "") test_track_api
              not_found unreachable "t1" test_track eq_refl)
    as (r & E & _ & P & _).
  - unfold provider_failed. simpl. lia.
  - exact I.
  - exists r. split; [exact E|exact P].
Defined.

(** Every reply of [get_landing_page_data] is built from the track lookup
    (an album id is looked up as a track too): it has no release date and
    no popularity, one cover image for its three thumbnails, and the id it
    was asked for.  Every failure has status 500. *)
Theorem landing_reply_shape (str_exn : exn -> string)
  (track_api : TrackLookup) (http_links http_page : SongLink)
  (spotify_id : string) :
  match get_landing_page_data str_exn track_api http_links http_page
          spotify_id with
  | Reply r =>
      (exists t,
         track_api spotify_id = Ok t /\
         LandingPageData.title r = track_name t /\
         LandingPageData.album r = Some (ta_name (track_album t)) /\
         LandingPageData.duration_ms r = Some (track_duration_ms t) /\
         LandingPageData.thumbnail_small r
         = cover_of (ta_images (track_album t))) /\
      LandingPageData.release_date r = None /\
      LandingPageData.popularity r = None /\
      LandingPageData.thumbnail_small r = LandingPageData.thumbnail_medium r /\
      LandingPageData.thumbnail_medium r = LandingPageData.thumbnail_large r /\
      LandingPageData.spotify_id r = spotify_id
  | Failed h => http_status h = 500%Z
  end.
Proof.
  unfold get_landing_page_data, get_track_metadata.
  destruct (track_api spotify_id) as [t|e]; simpl; [|reflexivity].
  destruct (get_detailed_platform_data http_links _); simpl; [|reflexivity].
  destruct (get_songlink_page_url http_page _) as [v|e]; simpl;
    [|reflexivity].
  destruct (LandingPageData.str_field v); simpl; [|reflexivity].
  repeat split. exists t. repeat split.
Qed.

(* ================================================================== *)
(** ** The duration of a preview card *)

(** The numbers 0..99 formatted with [:02d], evaluated. *)
Lemma format_02d_table :
  forallb (fun n =>
             String.eqb (format_02d (Z.of_nat n))
               (String (digit (Z.of_nat n / 10))
                  (String (digit (Z.of_nat n mod 10)) "")))
    (seq 0 100) = true.
Proof. vm_compute. reflexivity. Qed.

Lemma format_02d_two_digits (z : Z) :
  (0 <= z < 100)%Z ->
  format_02d z = String (digit (z / 10)) (String (digit (z mod 10)) "").
Proof.
  intros H. pose proof format_02d_table as T. rewrite forallb_forall in T.
  specialize (T (Z.to_nat z)). rewrite Z2Nat.id in T by lia.
  apply String.eqb_eq, T, in_seq. lia.
Qed.

Lemma parse_int_str_int (z : Z) : parse_int (str_int z) = Some z.
Proof.
  unfold parse_int, str_int. rewrite NilZero.isi.
  - simpl. now rewrite DecimalZ.of_to.
  - destruct z; simpl; try discriminate.
    intros [= H]. now apply DecimalPos.Unsigned.to_uint_nonnil in H.
  - destruct z; simpl; try discriminate.
    intros [= H]. now apply DecimalPos.Unsigned.to_uint_nonnil in H.
Qed.

(** A duration of 0 ms has no display string.  Any other duration is shown
    as the minutes in decimal, a colon and exactly two digits of seconds
    below 60, and minutes and seconds together are the duration in whole
    seconds; the minutes read back as the number they print. *)
Theorem format_duration_spec (ms : Z) :
  (format_duration (Some ms) = None <-> ms = 0%Z) /\
  (ms <> 0%Z ->
   let m := (ms / 60000)%Z in
   let s := ((ms mod 60000) / 1000)%Z in
   (0 <= s < 60)%Z /\
   (60 * m + s = ms / 1000)%Z /\
   format_duration (Some ms)
   = Some (str_int m ++ ":"
           ++ String (digit (s / 10)) (String (digit (s mod 10)) ""))%string /\
   parse_int (str_int m) = Some m).
Proof.
  split.
  - unfold format_duration.
    destruct (Z.eqb_spec ms 0); split; try congruence; discriminate.
  - intros H m s.
    assert (0 <= s < 60)%Z as Hs by (subst s; Z.div_mod_to_equations; lia).
    split; [exact Hs|]. split; [subst m s; Z.div_mod_to_equations; lia|].
    split; [|apply parse_int_str_int].
    unfold format_duration. destruct (Z.eqb_spec ms 0); [contradiction|].
    fold m s. rewrite format_02d_two_digits by lia. reflexivity.
Qed.

Lemma format_duration_witness :
  format_duration (Some 215000%Z) = Some "3:35".
Proof.
  destruct (format_duration_spec 215000) as [_ H].
  destruct H as (_ & _ & E & _); [discriminate|]. exact E.
Defined.

(** The preview card of a found track while the link provider fails:
    the quick links hold the source URL for Spotify and nothing for the
    three other platforms, no deep link is given, and the duration is the
    formatted duration of the track. *)
Theorem preview_card_under_provider_failure
  (str_exn : exn -> string) (str_http : HTTPException -> string)
  (track_api : TrackLookup) (http_links http_page : SongLink)
  (spotify_id : string) (t : Track) :
  track_api spotify_id = Ok t ->
  provider_failed http_links (track_spotify t) ->
  provider_failed http_page (track_spotify t) ->
  exists p,
    get_preview_card_data str_exn str_http track_api http_links http_page
      spotify_id = Reply p /\
    PreviewCardData.quick_links p
    = [("spotify", Some (track_spotify t)); ("apple_music", None);
       ("youtube_music", None); ("deezer", None)] /\
    PreviewCardData.deep_links p
    = [("spotify_app", None); ("apple_music_app", None)] /\
    PreviewCardData.duration p = format_duration (Some (track_duration_ms t)) /\
    PreviewCardData.title p = track_name t /\
    PreviewCardData.cover_art p = cover_of (ta_images (track_album t)).
Proof.
  intros H Hl Hp.
  unfold get_preview_card_data, get_landing_page_data, get_track_metadata.
  rewrite H. simpl.
  rewrite (get_detailed_platform_data_on_failure _ _ Hl). simpl.
  rewrite (get_songlink_page_url_on_failure _ _ Hp). simpl.
  eexists. split; [reflexivity|]. repeat split.
Qed.

Lemma preview_card_witness :
  exists p,
    get_preview_card_data (fun _ => "") (fun _ => "") test_track_api
      not_found unreachable "t1" = Reply p /\
    PreviewCardData.duration p = Some "3:35".
Proof.
  destruct (preview_card_under_provider_failure (fun _ => "") (fun _ => "")
              test_track_api not_found unreachable "t1" test_track eq_refl)
    as (p & E & _ & _ & D & _).
  - unfold provider_failed. simpl. lia.
  - exact I.
  - exists p. split; [exact E|]. rewrite D. reflexivity.
Defined.

(** With a 200 answer and a well-formed mapping the preview card links to
    the URLs the mapping lists for its four platforms, and to the mobile
    URIs it lists for Spotify and Apple Music. *)
Theorem preview_card_on_success
  (str_exn : exn -> string) (str_http : HTTPException -> string)
  (track_api : TrackLookup) (http_links http_page : SongLink)
  (spotify_id : string) (t : Track) (items : list (string * json))
  (p : PreviewCardData.t) :
  track_api spotify_id = Ok t ->
  answers_with http_links (track_spotify t) items ->
  mapping_ok items = true ->
  get_preview_card_data str_exn str_http track_api http_links http_page
    spotify_id = Reply p ->
  PreviewCardData.quick_links p
  = [("spotify", listed items "spotify" "url");
     ("apple_music", listed items "appleMusic" "url");
     ("youtube_music", listed items "youtubeMusic" "url");
     ("deezer", listed items "deezer" "url")] /\
  PreviewCardData.deep_links p
  = [("spotify_app", listed items "spotify" "nativeAppUriMobile");
     ("apple_music_app", listed items "appleMusic" "nativeAppUriMobile")].
Proof.
  intros H Ha Hok.
  unfold get_preview_card_data, get_landing_page_data, get_track_metadata.
  rewrite H. simpl.
  rewrite (detailed_links_listed _ _ _ Ha Hok). simpl.
  destruct (get_songlink_page_url http_page _) as [v|e]; simpl;
    [|discriminate].
  destruct (LandingPageData.str_field v); simpl; [|discriminate].
  intros [= <-]. split; reflexivity.
Qed.

Lemma preview_card_on_success_witness :
  exists p,
    get_preview_card_data (fun _ => "") (fun _ => "") test_track_api
      two_platforms two_platforms "t1" = Reply p /\
    PreviewCardData.quick_links p
    = [("spotify", Some "https://open.spotify.com/track/t1");
       ("apple_music", Some "https://music.apple.com/t1");
       ("youtube_music", None); ("deezer", None)].
Proof.
  eexists. split; [reflexivity|].
  apply (preview_card_on_success (fun _ => "") (fun _ => "") test_track_api
           two_platforms two_platforms "t1" test_track _ _ eq_refl
           two_platforms_answers eq_refl eq_refl).
Defined.

(* ================================================================== *)
(** ** The ranking is determined by the scores *)

(** [stable_sort_unique] on two candidates in ascending order of score:
    the only stable descending arrangement is the swapped one. *)
Lemma stable_sort_unique_witness :
  [(2, 0.7%float); (1, 0.5%float)] = sort_desc [(1, 0.5%float); (2, 0.7%float)].
Proof.
  apply stable_sort_unique.
  - repeat constructor.
  - apply perm_swap.
  - repeat constructor.
  - intros v. simpl. unfold has_score. simpl.
    destruct (0.7 =? v)%float eqn:E7, (0.5 =? v)%float eqn:E5; try reflexivity.
    pose proof (FloatOrder.eqb_not_ltb _ _ _ E5 E7) as H. discriminate H.
Defined.
